(** * queuectl: the claim / execute / settle engine of the job queue

    A shallow embedding of [worker.py] (class [Worker]) and of the
    administrative commands of [cli.py] ([enqueue], [dlq retry],
    [rescue leases]) over a model of the [jobs] table of [storage.py].

    Modelling conventions.
    - The [jobs] table is a finite map from the primary key [id] to the
      remaining columns of the row.
    - A timestamp is the number of microseconds since the epoch (the
      resolution of [datetime]).  The columns the code only ever writes
      through [isoformat()] are kept as such instants: SQLite compares the
      stored strings as text, which for strings in that fixed layout is
      the chronological order.  [run_at] is different: [enqueue] stores
      the text of [--run-at] as given, so that column is kept as text and
      compared as text.
    - [datetime] and [timedelta] have a range; arithmetic that leaves it
      raises OverflowError, which nothing in [worker.py] catches.
    - [duration_seconds] is kept as the exact number of microseconds that
      [total_seconds()] converts to a float.
    - Every [self._now()] / [datetime.utcnow()] of the source is one reading
      of a clock oracle; successive readings are independent values of the
      oracle. *)

From stdpp Require Import base option list gmap fin_maps strings.
From Stdlib Require Import ZArith Lia Sorted.

Local Open Scope Z_scope.

(** ** The rows of the [jobs] table ([storage.py], [_init_schema]) *)

Inductive State := pending | processing | completed | failed | dead.

#[global] Instance State_eq_dec : EqDecision State.
Proof. solve_decision. Defined.

(** One row without its key.  [priority] is declared [INTEGER DEFAULT 0];
    the only INSERT of the repository ([enqueue]) always supplies an
    integer, so the column is modelled as an integer. *)
Record Job := mkJob {
  command : string;
  state : State;
  attempts : Z;
  max_retries : Z;
  exit_code : option Z;
  error : option string;
  worker_id : option string;
  lease_until : option Z;
  next_run_at : option Z;
  timeout_seconds : option Z;
  priority : Z;
  run_at : option string;
  started_at : option Z;
  finished_at : option Z;
  output : option string;
  duration_seconds : option Z;
  created_at : Z;
  updated_at : Z
}.

Abbreviation Table := (gmap string Job).

(** A fetched row ([sqlite3.Row] of [SELECT *]): the key and the columns. *)
Definition Row : Type := string * Job.

(** ** SQL fragments used by the queries *)

Module Sql.

(** [col <= ?] on a nullable column: NULL compares to nothing. *)
Definition le (col : option Z) (v : Z) : bool :=
  match col with
  | Some x => x <=? v
  | None => false
  end.

(** [col <= ?] on a nullable TEXT column against a text: the bytes are
    compared in order, a proper prefix sorting first. *)
Definition le_text (col : option string) (v : string) : bool :=
  match col with
  | Some x => String.leb x v
  | None => false
  end.

Definition is_null {A} (col : option A) : bool :=
  match col with
  | Some _ => false
  | None => true
  end.

(** [COALESCE(col, ?)] *)
Definition coalesce {A} (col : option A) (v : A) : option A :=
  match col with
  | Some x => Some x
  | None => Some v
  end.

(** [SELECT ... FROM jobs WHERE wh], in the scan order of the table. *)
Definition select (wh : string -> Job -> bool) (t : Table) : list Row :=
  List.filter (fun kr : Row => wh kr.1 kr.2) (map_to_list t).

(** [UPDATE jobs SET set WHERE wh]: the new table and [rowcount]. *)
Definition update (wh : string -> Job -> bool) (set : Job -> Job)
    (t : Table) : Table * Z :=
  (map_imap (fun k r => Some (if wh k r then set r else r)) t,
   Z.of_nat (length (select wh t))).

(** [ORDER BY priority DESC, created_at ASC]: [before a b] when [a] sorts
    strictly before [b]. *)
Definition before (a b : Row) : bool :=
  (priority b.2 <? priority a.2)
  || ((priority a.2 =? priority b.2) && (created_at a.2 <? created_at b.2)).

(** [LIMIT 1] after the ordering: the first row that no other row sorts
    strictly before; rows that tie keep the scan order. *)
Fixpoint first_by (rows : list Row) : option Row :=
  match rows with
  | [] => None
  | r :: rest =>
      match first_by rest with
      | Some b => if before b r then Some b else Some r
      | None => Some r
      end
  end.

End Sql.

(** ** The world: the table, the clock and the host's time zone *)

Record World := mkWorld {
  jobs : Table;
  clock : nat -> Z;       (* the n-th reading of the UTC clock *)
  tick : nat;             (* number of readings taken so far *)
  utc_offset : Z          (* local time minus UTC of the host, in seconds *)
}.

Definition M (A : Type) : Type := World -> A * World.

#[global] Instance M_ret : MRet M := fun A x w => (x, w).
#[global] Instance M_bind : MBind M :=
  fun A B f m w => let (x, w') := m w in f x w'.

(** [datetime.utcnow()] *)
Definition utcnow : M Z :=
  fun w => (clock w (tick w),
            mkWorld (jobs w) (clock w) (S (tick w)) (utc_offset w)).

Definition get_jobs : M Table := fun w => (jobs w, w).

Definition put_jobs (t : Table) : M unit :=
  fun w => (tt, mkWorld t (clock w) (tick w) (utc_offset w)).

Definition get_utc_offset : M Z := fun w => (utc_offset w, w).

(** [conn.execute("UPDATE ...").rowcount] *)
Definition execute_update (wh : string -> Job -> bool) (set : Job -> Job)
    : M Z :=
  t ← get_jobs;
  let (t', n) := Sql.update wh set t in
  _ ← put_jobs t';
  mret n.

(** [timedelta(seconds=s)] in microseconds. *)
Definition timedelta_seconds (s : Z) : Z := s * 1000000.

(** ** [datetime]: its range and its ISO layout *)

Inductive Exn := OverflowError.

(** What a call that may raise ends in. *)
Inductive Outcome (A : Type) :=
| Returned (a : A)
| Raised (e : Exn).

Arguments Returned {A} a.
Arguments Raised {A} e.

Module Datetime.

(** [datetime.min] and [datetime.max], in microseconds since the epoch. *)
Definition min : Z := -62135596800000000.
Definition max : Z := 253402300799999999.

(** [timedelta(seconds=s)] exists when its day count has magnitude at
    most 999999999. *)
Definition timedelta_ok (s : Z) : bool :=
  (-999999999 <=? s / 86400) && (s / 86400 <=? 999999999).

(** [dt + timedelta(seconds=s)]; [None] stands for OverflowError, raised
    by [timedelta] itself or by the addition leaving [min .. max]. *)
Definition add_seconds (dt s : Z) : option Z :=
  if timedelta_ok s
     && (min <=? dt + timedelta_seconds s)
     && (dt + timedelta_seconds s <=? max)
  then Some (dt + timedelta_seconds s)
  else None.

(** The proleptic Gregorian date of a day number counted from
    1970-01-01. *)
Definition civil_from_days (day : Z) : Z * Z * Z :=
  let z := day + 719468 in
  let era := z / 146097 in
  let doe := z - era * 146097 in
  let yoe := (doe - doe / 1460 + doe / 36524 - doe / 146096) / 365 in
  let doy := doe - (365 * yoe + yoe / 4 - yoe / 100) in
  let mp := (5 * doy + 2) / 153 in
  let d := doy - (153 * mp + 2) / 5 + 1 in
  let m := if mp <? 10 then mp + 3 else mp - 9 in
  let y := yoe + era * 400 + (if m <=? 2 then 1 else 0) in
  (y, m, d).

Definition digit (n : Z) : Ascii.ascii :=
  Ascii.ascii_of_nat (48 + Z.to_nat (n mod 10)).

(** [n] in decimal on [width] digits, zero-padded. *)
Fixpoint pad (width : nat) (n : Z) : string :=
  match width with
  | O => ""
  | S w => (pad w (n / 10) ++ String (digit n) "")%string
  end.

(** [dt.isoformat(sep)]: YYYY-MM-DD, the separator, HH:MM:SS, and
    .ffffff when the microsecond is not 0. *)
Definition isoformat_sep (sep : string) (t : Z) : string :=
  let '(y, m, d) := civil_from_days (t / 86400000000) in
  let rem := t mod 86400000000 in
  let secs := rem / 1000000 in
  let us := rem mod 1000000 in
  (pad 4 y ++ "-" ++ pad 2 m ++ "-" ++ pad 2 d ++ sep
   ++ pad 2 (secs / 3600) ++ ":" ++ pad 2 (secs / 60 mod 60) ++ ":"
   ++ pad 2 (secs mod 60)
   ++ (if (us =? 0)%Z then "" else "." ++ pad 6 us))%string.

(** [dt.isoformat()] *)
Definition isoformat (t : Z) : string := isoformat_sep "T" t.

End Datetime.

(** ** The worker ([worker.py]) *)

(** A [Worker] as [cli.py worker] builds it from the configuration or
    the constructor's defaults: [lease_seconds] and [backoff_base] are
    integers. *)
Record Worker := mkWorker {
  self_worker_id : string;
  lease_seconds : Z;
  backoff_base : Z
}.

(** [_now] *)
Definition _now : M Z := utcnow.

(** [_log_transition]: reads the clock for the log line it prints. *)
Definition _log_transition : M unit :=
  _ ← _now; mret tt.

(** The readiness predicate, the WHERE clause of the claim's SELECT; all
    three parameters are [now.isoformat()]. *)
Definition ready (now : Z) (r : Job) : bool :=
  (bool_decide (state r = pending)
   || (bool_decide (state r = failed)
       && (negb (Sql.is_null (next_run_at r)) && Sql.le (next_run_at r) now)))
  && (Sql.is_null (run_at r)
      || Sql.le_text (run_at r) (Datetime.isoformat now))
  && (Sql.is_null (lease_until r) || Sql.le (lease_until r) now).

(** The lease guard repeated on the claim's UPDATE. *)
Definition lease_free (now : Z) (r : Job) : bool :=
  Sql.is_null (lease_until r) || Sql.le (lease_until r) now.

(** The SET clause of the claim's UPDATE. *)
Definition set_claimed (wid : string) (lease now : Z) (r : Job) : Job :=
  mkJob (command r) processing (attempts r) (max_retries r) (exit_code r)
    (error r) (Some wid) (Some lease) (next_run_at r) (timeout_seconds r)
    (priority r) (run_at r) (Sql.coalesce (started_at r) now) (finished_at r)
    (output r) (duration_seconds r) (created_at r) now.

(** [_claim_one_ready_job].  The lease end is computed before the
    transaction begins. *)
Definition _claim_one_ready_job (self : Worker) : M (Outcome (option Row)) :=
  now ← _now;
  match Datetime.add_seconds now (lease_seconds self) with
  | None => mret (Raised OverflowError)
  | Some lease =>
      t ← get_jobs;
      match Sql.first_by (Sql.select (fun _ r => ready now r) t) with
      | None => mret (Returned None)
      | Some row =>
          let job_id := row.1 in
          updated ← execute_update
            (fun k r => bool_decide (k = job_id) && lease_free now r)
            (set_claimed (self_worker_id self) lease now);
          if updated =? 1 then
            t' ← get_jobs;
            let job := (fun r => (job_id, r)) <$> (t' !! job_id) in
            _ ← _log_transition;
            mret (Returned job)
          else mret (Returned None)
      end
  end.

(** What the child process does when left alone: how long it runs and what
    it returns.  [subprocess.run] is given this behaviour and the timeout.
    [stdout] and [stderr] are the texts [subprocess.run] hands back, so
    the children modelled are those whose output decodes. *)
Record Child := mkChild {
  run_time : Z;           (* microseconds until the child exits *)
  returncode : Z;
  stdout : string;
  stderr : string
}.

Inductive RunResult :=
| CompletedProcess (rc : Z) (out err : string)
| TimeoutExpired.

(** [subprocess.run(..., timeout=t)] as documented: the child is killed
    and [TimeoutExpired] raised when it is still running after [t]
    seconds.  Timeouts longer than the wait call of the platform takes
    (about 24 days where it counts milliseconds in 32 bits) are outside the
    model. *)
Definition subprocess_run (c : Child) (timeout : option Z) : RunResult :=
  match timeout with
  | Some t =>
      if timedelta_seconds t <? run_time c then TimeoutExpired
      else CompletedProcess (returncode c) (stdout c) (stderr c)
  | None => CompletedProcess (returncode c) (stdout c) (stderr c)
  end.

(** [x or 0] on an integer. *)
Definition or_zero (x : Z) : Z := if x =? 0 then 0 else x.

(** [x if x else None] on a nullable integer. *)
Definition truthy (x : option Z) : option Z :=
  match x with
  | Some 0 => None
  | other => other
  end.

Definition set_dead (attempts' exit : Z) (err : option string)
    (now_iso duration : Z) (r : Job) : Job :=
  mkJob (command r) dead attempts' (max_retries r) (Some exit) err
    (worker_id r) None (next_run_at r) (timeout_seconds r) (priority r)
    (run_at r) (started_at r) (Some now_iso) (output r) (Some duration)
    (created_at r) now_iso.

Definition set_failed (attempts' exit : Z) (err : option string)
    (next_run now_iso duration : Z) (r : Job) : Job :=
  mkJob (command r) failed attempts' (max_retries r) (Some exit) err
    (worker_id r) None (Some next_run) (timeout_seconds r) (priority r)
    (run_at r) (started_at r) (finished_at r) (output r) (Some duration)
    (created_at r) now_iso.

Definition set_completed (exit : Z) (out : string) (now_iso duration : Z)
    (r : Job) : Job :=
  mkJob (command r) completed (attempts r) (max_retries r) (Some exit) None
    (worker_id r) None (next_run_at r) (timeout_seconds r) (priority r)
    (run_at r) (started_at r) (Some now_iso) (Some out) (Some duration)
    (created_at r) now_iso.

(** [WHERE id=?] *)
Definition by_id (job_id : string) : string -> Job -> bool :=
  fun k _ => bool_decide (k = job_id).

(** What sqlite3 binds as an INTEGER: a signed 64-bit value; a larger
    Python [int] makes [execute] raise. *)
Definition sqlite_integer (n : Z) : bool :=
  (- 2 ^ 63 <=? n) && (n <? 2 ^ 63).

(** [_handle_failure].  The exponent of [**] is the new attempt count; the
    model covers non-negative exponents (a negative one makes Python
    return a float).  When the retry time is not a [datetime] the
    addition raises, and when the new count is no SQLite INTEGER the
    UPDATE raises: either way nothing is written. *)
Definition _handle_failure (self : Worker) (job : Row) (exit : Z)
    (now_iso duration : Z) (err : option string) : M (Outcome unit) :=
  let attempts' := or_zero (attempts job.2) + 1 in
  if max_retries job.2 <=? attempts' then
    if sqlite_integer attempts' then
      _ ← execute_update (by_id job.1)
            (set_dead attempts' exit err now_iso duration);
      _ ← _log_transition;
      mret (Returned tt)
    else mret (Raised OverflowError)
  else
    let delay := backoff_base self ^ attempts' in
    now ← _now;
    match Datetime.add_seconds now delay with
    | None => mret (Raised OverflowError)
    | Some next_run =>
        if sqlite_integer attempts' then
          _ ← execute_update (by_id job.1)
                (set_failed attempts' exit err next_run now_iso duration);
          _ ← _log_transition;
          mret (Returned tt)
        else mret (Raised OverflowError)
    end.

(** [_process_job], with the behaviour of the child it spawns. *)
Definition _process_job (self : Worker) (job : Row) (c : Child)
    : M (Outcome unit) :=
  start_time ← _now;
  match subprocess_run c (truthy (timeout_seconds job.2)) with
  | CompletedProcess rc out err =>
      let output := (out ++ err)%string in
      now_iso ← _now;
      t ← _now;
      let duration := t - start_time in
      if rc =? 0 then
        _ ← execute_update (by_id job.1)
              (set_completed rc output now_iso duration);
        _ ← _log_transition;
        mret (Returned tt)
      else _handle_failure self job rc now_iso duration (Some err)
  | TimeoutExpired =>
      now_iso ← _now;
      t ← _now;
      let duration := t - start_time in
      _handle_failure self job (-1) now_iso duration (Some "timeout"%string)
  end.

(** One turn of the loop of [run]: a claim and, on a hit, the attempt
    (the child's behaviour is given).  The sleep after a miss changes
    nothing in the store; an exception ends the loop. *)
Definition run_turn (self : Worker) (c : Child) : M (Outcome unit) :=
  claim ← _claim_one_ready_job self;
  match claim with
  | Raised e => mret (Raised e)
  | Returned None => mret (Returned tt)
  | Returned (Some j) => _process_job self j c
  end.

(** ** The administrative commands ([cli.py]) *)

(** The [--run-at] option once read: [+] followed by text that [int()]
    reads as [n]; [+] followed by text that [int()] rejects; or any other
    text, which is taken as it stands. *)
Inductive RunAt :=
| RelativeSeconds (n : Z)
| Verbatim (s : string)
| Malformed.

Definition new_job (cmd : string) (retries : Z) (timeout : option Z)
    (prio : Z) (scheduled : option string) (now : Z) : Job :=
  mkJob cmd pending 0 retries None None None None None timeout prio
    scheduled None None None None now now.

(** [enqueue], from the point where [max_retries] has been resolved
    against the configured default.  The result tells whether a row was
    inserted.  Both [try] blocks catch every exception: a [+N] whose
    [timedelta] or sum overflows is reported as an invalid [--run-at], and
    an integer sqlite3 cannot bind or a duplicate [id] as a failed
    enqueue; none of them inserts anything.  An empty [--run-at] counts as
    absent. *)
Definition enqueue (id cmd : string) (retries : Z) (timeout : option Z)
    (prio : Z) (run_at_opt : option RunAt) : M bool :=
  now ← utcnow;
  parsed ← match run_at_opt with
           | None | Some (Verbatim "") => mret (Some None)
           | Some (RelativeSeconds n) =>
               t ← utcnow;
               mret ((fun t' => Some (Datetime.isoformat t'))
                       <$> Datetime.add_seconds t n)
           | Some (Verbatim s) => mret (Some (Some s))
           | Some Malformed => mret None
           end;
  match parsed with
  | None => mret false
  | Some scheduled =>
      if sqlite_integer retries && sqlite_integer prio
         && from_option sqlite_integer true timeout
      then
        t ← get_jobs;
        match t !! id with
        | Some _ => mret false
        | None =>
            let row := new_job cmd retries timeout prio scheduled now in
            _ ← put_jobs (<[id := row]> t);
            mret true
        end
      else mret false
  end.

Definition set_retried (now : Z) (r : Job) : Job :=
  mkJob (command r) pending 0 (max_retries r) (exit_code r) None None None
    None (timeout_seconds r) (priority r) (run_at r) (started_at r)
    (finished_at r) (output r) (duration_seconds r) (created_at r) now.

(** [dlq retry JOB_ID] *)
Definition dlq_retry (job_id : string) : M unit :=
  now ← utcnow;
  _ ← execute_update
        (fun k r => bool_decide (k = job_id) && bool_decide (state r = dead))
        (set_retried now);
  mret tt.

(** [naive.timestamp()]: Python reads a naive [datetime] as local time, so
    the POSIX timestamp of the value [datetime.utcnow()] returns is off by
    the host's offset from UTC.  In microseconds. *)
Definition timestamp (offset : Z) (naive : Z) : Z :=
  naive - timedelta_seconds offset.

(** [datetime.utcfromtimestamp(ts)] *)
Definition utcfromtimestamp (ts : Z) : Z := ts.

Definition expired_lease (cutoff_iso : Z) (r : Job) : bool :=
  bool_decide (state r = processing)
  && negb (Sql.is_null (lease_until r))
  && Sql.le (lease_until r) cutoff_iso.

Definition set_rescued (now : Z) (r : Job) : Job :=
  mkJob (command r) pending (attempts r) (max_retries r) (exit_code r)
    (error r) None None (next_run_at r) (timeout_seconds r) (priority r)
    (run_at r) (started_at r) (finished_at r) (output r) (duration_seconds r)
    (created_at r) now.

(** The two statements of [rescue leases], which run outside any
    transaction: the SELECT of the ids, and the UPDATE of the rows with
    these ids. *)
Definition rescue_select (older_than_seconds : Z) : M (list string) :=
  t0 ← utcnow;
  offset ← get_utc_offset;
  let cutoff := timestamp offset t0 - timedelta_seconds older_than_seconds in
  let cutoff_iso := utcfromtimestamp cutoff in
  t ← get_jobs;
  mret (Sql.select (fun _ r => expired_lease cutoff_iso r) t).*1.

Definition rescue_update (ids : list string) : M unit :=
  now ← utcnow;
  _ ← execute_update (fun k _ => bool_decide (k ∈ ids)) (set_rescued now);
  mret tt.

(** [rescue leases --older-than-seconds N]; the result is the list of ids
    the command reports (empty for "No expired leases found."). *)
Definition rescue_leases (older_than_seconds : Z) : M (list string) :=
  t0 ← utcnow;
  offset ← get_utc_offset;
  let cutoff := timestamp offset t0 - timedelta_seconds older_than_seconds in
  let cutoff_iso := utcfromtimestamp cutoff in
  t ← get_jobs;
  let rows := Sql.select (fun _ r => expired_lease cutoff_iso r) t in
  match rows with
  | [] => mret []
  | _ =>
      let ids := rows.*1 in
      now ← utcnow;
      _ ← execute_update (fun k _ => bool_decide (k ∈ ids)) (set_rescued now);
      mret ids
  end.

(** ** The system: several workers and the operator over one store

    [cli.py worker --count N] starts N threads that each loop over
    [_claim_one_ready_job] and [_process_job]; the operator runs [enqueue],
    [rescue leases] and [dlq retry] against the same database at any time.
    A run of the system is an interleaving of steps.  A claim, an attempt
    with its settlement, an [enqueue] and a [dlq retry] are one step each
    (SQLite serialises the writers); [rescue leases] is two steps, its
    SELECT and its UPDATE, since it runs them as separate statements
    outside any transaction.  Between its claim and its settlement a
    worker holds the row it fetched when claiming: these snapshots are the
    [inflight] list.  Between its two statements a rescue holds the ids it
    selected: the [rescuing] list.  A worker whose claim or attempt raises
    is gone. *)

Record Sys := mkSys {
  world : World;
  inflight : list Row;
  rescuing : list (list string)
}.

Inductive Label :=
| LEnqueue (id cmd : string) (retries : Z) (timeout : option Z) (prio : Z)
    (run_at_opt : option RunAt)
| LClaim (self : Worker)
| LProcess (self : Worker) (job : Row) (c : Child)
| LCrash (job : Row)
| LRescueSelect (older_than_seconds : Z)
| LRescueUpdate (ids : list string)
| LDlqRetry (job_id : string).

Definition claimed (res : Outcome (option Row)) (held : list Row)
    : list Row :=
  match res with
  | Returned (Some job) => job :: held
  | _ => held
  end.

(** A rescue that selected nothing reports so and stops. *)
Definition selected (ids : list string) (held : list (list string))
    : list (list string) :=
  match ids with
  | [] => held
  | _ => ids :: held
  end.

Inductive step : Sys -> Label -> Sys -> Prop :=
| step_enqueue s id cmd retries timeout prio ra :
    step s (LEnqueue id cmd retries timeout prio ra)
      (mkSys (enqueue id cmd retries timeout prio ra (world s)).2
         (inflight s) (rescuing s))
| step_claim s self :
    step s (LClaim self)
      (mkSys (_claim_one_ready_job self (world s)).2
         (claimed (_claim_one_ready_job self (world s)).1 (inflight s))
         (rescuing s))
| step_process s self job c held1 held2 :
    inflight s = held1 ++ job :: held2 ->
    step s (LProcess self job c)
      (mkSys (_process_job self job c (world s)).2 (held1 ++ held2)
         (rescuing s))
| step_crash s job held1 held2 :
    inflight s = held1 ++ job :: held2 ->
    step s (LCrash job) (mkSys (world s) (held1 ++ held2) (rescuing s))
| step_rescue_select s older :
    step s (LRescueSelect older)
      (mkSys (rescue_select older (world s)).2 (inflight s)
         (selected (rescue_select older (world s)).1 (rescuing s)))
| step_rescue_update s ids held1 held2 :
    rescuing s = held1 ++ ids :: held2 ->
    step s (LRescueUpdate ids)
      (mkSys (rescue_update ids (world s)).2 (inflight s) (held1 ++ held2))
| step_dlq_retry s job_id :
    step s (LDlqRetry job_id)
      (mkSys (dlq_retry job_id (world s)).2 (inflight s) (rescuing s)).

(** The attempt takes the completed path of [_process_job]: the child is
    not timed out and exits with code 0. *)
Definition succeeds (job : Row) (c : Child) : bool :=
  match subprocess_run c (truthy (timeout_seconds job.2)) with
  | CompletedProcess rc _ _ => rc =? 0
  | TimeoutExpired => false
  end.

(** The step writes a success settlement on row [id]. *)
Definition completes (id : string) (l : Label) : Prop :=
  match l with
  | LProcess _ job c => job.1 = id /\ succeeds job c = true
  | _ => False
  end.

(** Runs from [s] under a side condition [G] on every step taken; the
    labels are listed newest first. *)
Inductive reach (G : Sys -> Label -> Prop) (s : Sys)
    : list Label -> Sys -> Prop :=
| reach_here : reach G s [] s
| reach_more ls s1 l s2 :
    reach G s ls s1 -> G s1 l -> step s1 l s2 -> reach G s (l :: ls) s2.

Definition any_step : Sys -> Label -> Prop := fun _ _ => True.




(** The store before anything was enqueued. *)
Definition initial (s : Sys) : Prop :=
  jobs (world s) = ∅ /\ inflight s = [] /\ rescuing s = [].

(** ** The claims of the specification, as they are written *)

(** Failure settlement with a single [now]: the value the settlement
    stamps on the row is also the origin of the backoff delay. *)
Definition backoff_from_settle_now (self : Worker) (job : Row) (c : Child)
    (w : World) : Prop :=
  forall r', jobs (_process_job self job c w).2 !! job.1 = Some r' ->
    state r' = failed ->
    next_run_at r'
    = Some (updated_at r' + timedelta_seconds (backoff_base self ^ attempts r')).

(** Schedule gating in time: the job a claim returns has no [run_at]
    that, read as an ISO timestamp with whatever separator, lies after
    [now]. *)
Definition run_at_not_after_now (self : Worker) (w : World) : Prop :=
  forall id j sep t,
    (_claim_one_ready_job self w).1 = Returned (Some (id, j)) ->
    run_at j = Some (Datetime.isoformat_sep sep t) ->
    t <= clock w (tick w).

(** A timed-out attempt ends settled with the timeout markers. *)
Definition timeout_is_settled (self : Worker) (job : Row) (c : Child)
    (w : World) : Prop :=
  exists r', jobs (_process_job self job c w).2 !! job.1 = Some r'
    /\ exit_code r' = Some (-1) /\ error r' = Some "timeout"%string.




(** The world after [n] more clock readings, holding table [t]. *)
Definition ticked (n : nat) (t : Table) (w : World) : World :=
  mkWorld t (clock w) (n + tick w) (utc_offset w).

(** The cutoff [rescue_leases] compares the leases with. *)
Definition rescue_cutoff (older : Z) (w : World) : Z :=
  clock w (tick w) - timedelta_seconds (utc_offset w)
  - timedelta_seconds older.

(** The ways one step rewrites an existing row [r] of key [k]: the
    transitions of the job state machine. *)
Inductive row_change (l : Label) (k : string) (r : Job) : Job -> Prop :=
| change_claimed self lease now :
    l = LClaim self ->
    state r = pending \/ state r = failed ->
    row_change l k r (set_claimed (self_worker_id self) lease now r)
| change_completed self job c now d :
    l = LProcess self job c -> job.1 = k -> succeeds job c = true ->
    row_change l k r
      (set_completed (returncode c) (stdout c ++ stderr c) now d r)
| change_dead self job c exit err now d :
    l = LProcess self job c -> job.1 = k -> succeeds job c = false ->
    max_retries job.2 <= attempts job.2 + 1 ->
    row_change l k r (set_dead (attempts job.2 + 1) exit err now d r)
| change_failed self job c exit err next now d :
    l = LProcess self job c -> job.1 = k -> succeeds job c = false ->
    attempts job.2 + 1 < max_retries job.2 ->
    row_change l k r (set_failed (attempts job.2 + 1) exit err next now d r)
| change_rescued ids now :
    l = LRescueUpdate ids -> k ∈ ids ->
    row_change l k r (set_rescued now r)
| change_retried now :
    l = LDlqRetry k -> state r = dead ->
    row_change l k r (set_retried now r).


(** The SET clause [_handle_failure] writes when it reads the clock as
    [now], if it gets to write: the new count must fit an INTEGER and, for
    a retry, the retry time must be a [datetime]. *)
Definition failure_write (self : Worker) (job : Row) (exit : Z)
    (now_iso duration : Z) (err : option string) (now : Z)
    : option (Job -> Job) :=
  let attempts' := or_zero (attempts job.2) + 1 in
  if sqlite_integer attempts' then
    if max_retries job.2 <=? attempts' then
      Some (set_dead attempts' exit err now_iso duration)
    else
      (fun next => set_failed attempts' exit err next now_iso duration)
      <$> Datetime.add_seconds now (backoff_base self ^ attempts')
  else None.

(** The SET clause an attempt writes on the row of its job. *)
Definition attempt_write (self : Worker) (job : Row) (c : Child) (w : World)
    : option (Job -> Job) :=
  let now_iso := clock w (S (tick w)) in
  let duration := clock w (S (S (tick w))) - clock w (tick w) in
  let now := clock w (S (S (S (tick w)))) in
  match subprocess_run c (truthy (timeout_seconds job.2)) with
  | CompletedProcess rc out err =>
      if rc =? 0 then Some (set_completed rc (out ++ err) now_iso duration)
      else failure_write self job rc now_iso duration (Some err) now
  | TimeoutExpired =>
      failure_write self job (-1) now_iso duration (Some "timeout"%string) now
  end.

(** What a call gives back when its write was, or was not, possible. *)
Definition outcome_of {A} (write : option A) : Outcome unit :=
  match write with
  | Some _ => Returned tt
  | None => Raised OverflowError
  end.

(** The new attempt count of a failure settlement fits an INTEGER. *)
Definition count_fits (job : Row) : Prop :=
  sqlite_integer (attempts job.2 + 1) = true.

(** The retry time of a failure settlement exists as a [datetime]. *)
Definition retry_time_exists (self : Worker) (job : Row) (now : Z) : Prop :=
  is_Some (Datetime.add_seconds now
             (backoff_base self ^ (attempts job.2 + 1))).

(** The [run_at] test of the readiness predicate. *)
Definition run_gate (now : Z) (r : Job) : bool :=
  Sql.is_null (run_at r) || Sql.le_text (run_at r) (Datetime.isoformat now).

(** ** Running examples *)

Module Examples.

Definition w1 : Worker := mkWorker "worker-1" 30 2.
Definition w2 : Worker := mkWorker "worker-2" 30 2.
Definition w_base1 : Worker := mkWorker "worker-1" 30 1.

Definition exits_1 : Child := mkChild 10 1 "" "boom".
Definition exits_0 : Child := mkChild 10 0 "out" "err".
Definition quiet_0 : Child := mkChild 10 0 "" "".
Definition sleeps_10 : Child := mkChild 10000000 0 "" "".

(** A clock whose readings are one second apart, and one whose readings
    are one microsecond apart. *)
Definition seconds_clock (n : nat) : Z := timedelta_seconds (Z.of_nat n).
Definition micro_clock (n : nat) : Z := Z.of_nat n.

Definition empty_world : World := mkWorld ∅ seconds_clock 0 0.

Definition after {A} (m : M A) (w : World) : World := (m w).2.

Definition two_jobs : World :=
  after (enqueue "hi" "true" 3 None 10 None)
    (after (enqueue "lo" "true" 3 None 0 None) empty_world).

(** One job, claimed by worker-1 at second 1 under a lease until second
    31; the worker then died.  The next clock reading is second 100. *)
Definition claimed_once : World :=
  after (_claim_one_ready_job w1)
    (after (enqueue "e" "sleep 5" 3 None 0 None) empty_world).

Definition crashed : World := ticked 97 (jobs claimed_once) claimed_once.

(** The same store at second 200 on a host whose local time is
    UTC+05:30. *)
Definition crashed_ist : World :=
  mkWorld (jobs claimed_once) seconds_clock 200 19800.

(** The same store at second 20, lease still running, on a host whose
    local time is UTC-05:00. *)
Definition live_est : World :=
  mkWorld (jobs claimed_once) seconds_clock 20 (-18000).

(** Job "b" (five attempts allowed) as worker-1 holds it after its claim,
    and the store at that point. *)
Definition job_b : Row :=
  ("b"%string,
   set_claimed "worker-1" 31000000 1000000
     (new_job "false" 5 None 0 None 0)).

Definition claimed_b : World :=
  mkWorld {[ "b"%string := job_b.2 ]} micro_clock 0 0.

(** Job "d": one attempt allowed, one second of timeout. *)
Definition job_d : Row :=
  ("d"%string,
   set_claimed "worker-1" 31000000 1000000
     (new_job "sleep 10" 1 (Some 1) 0 None 0)).

Definition claimed_d : World :=
  mkWorld {[ "d"%string := job_d.2 ]} seconds_clock 3 0.

(** The scenarios of the specification, on one worker. *)
Definition happy_path : World :=
  after (run_turn w1 quiet_0)
    (after (enqueue "a" "true" 3 None 0 None) empty_world).

Definition first_failure : World :=
  after (run_turn w_base1 exits_1)
    (after (enqueue "c" "false" 2 None 0 None) empty_world).

Definition second_failure : World :=
  after (run_turn w_base1 exits_1) first_failure.

Definition timed_out : World :=
  after (run_turn w1 sleeps_10)
    (after (enqueue "d" "sleep 10" 1 (Some 1) 0 None) empty_world).

Definition rescued_then_completed : World :=
  after (run_turn w2 quiet_0) (after (rescue_leases 0) crashed).

(** A worker whose backoff base is a million, and job "b" as it is held
    for its second attempt: the retry would be due 10^12 seconds later. *)
Definition w_million : Worker := mkWorker "worker-1" 30 1000000.

Definition job_b2 : Row :=
  ("b"%string,
   set_claimed "worker-1" 31000000 1000000
     (set_failed 1 1 (Some "boom"%string) 500000 400000 100000
        (new_job "false" 5 None 0 None 0))).

Definition claimed_b2 : World :=
  mkWorld {[ "b"%string := job_b2.2 ]} seconds_clock 3 0.

(** Job "d2": like "d" but with three attempts allowed, held by a worker
    whose backoff base is 10^12. *)
Definition w_huge : Worker := mkWorker "worker-1" 30 1000000000000.

Definition job_d2 : Row :=
  ("d2"%string,
   set_claimed "worker-1" 31000000 1000000
     (new_job "sleep 10" 3 (Some 1) 0 None 0)).

Definition claimed_d2 : World :=
  mkWorld {[ "d2"%string := job_d2.2 ]} seconds_clock 3 0.

(** Job "s", enqueued at 00:00:00 with [--run-at "1970-01-01 23:59:59"],
    the layout of [str(datetime)]. *)
Definition scheduled_s : World :=
  after (enqueue "s" "true" 3 None 0
           (Some (Verbatim "1970-01-01 23:59:59")))
    empty_world.

(** Job "c" scheduled at the epoch in the ISO layout, after its first
    failure under backoff base 1. *)
Definition retry_c : World :=
  after (run_turn w_base1 exits_1)
    (after (enqueue "c" "false" 2 None 0
              (Some (Verbatim "1970-01-01T00:00:00")))
       empty_world).

End Examples.

(** Four runs of the system.  The clock moves one minute per reading.
    Job "e" allows one attempt.  worker-1 claims it at 0:01:00 with a
    lease until 0:01:30, and the operator runs [rescue leases] with the
    default 60 seconds at 0:03:00. *)
Module LateRun.

Definition minute_clock (n : nat) : Z := timedelta_seconds (60 * Z.of_nat n).

Definition s0 : Sys := mkSys (mkWorld ∅ minute_clock 0 0) [] [].

Definition s1 : Sys :=
  mkSys (enqueue "e" "flaky" 1 None 0 None (world s0)).2
    (inflight s0) (rescuing s0).

Definition s2 : Sys :=
  mkSys (_claim_one_ready_job Examples.w1 (world s1)).2
    (claimed (_claim_one_ready_job Examples.w1 (world s1)).1 (inflight s1))
    (rescuing s1).

Definition s3 : Sys :=
  mkSys (rescue_select 60 (world s2)).2 (inflight s2)
    (selected (rescue_select 60 (world s2)).1 (rescuing s2)).

(** What worker-1 fetched when it claimed. *)
Definition snap1 : Row :=
  ("e"%string,
   set_claimed "worker-1" (timedelta_seconds 90) (timedelta_seconds 60)
     (new_job "flaky" 1 None 0 None 0)).

(** First run: the rescue completes, worker-2 claims the row, then the
    attempt of worker-1 ends with exit code 1 and after it the attempt of
    worker-2 with exit code 0. *)
Definition s3u : Sys :=
  mkSys (rescue_update ["e"%string] (world s3)).2 (inflight s3) ([] ++ []).

Definition s4 : Sys :=
  mkSys (_claim_one_ready_job Examples.w2 (world s3u)).2
    (claimed (_claim_one_ready_job Examples.w2 (world s3u)).1 (inflight s3u))
    (rescuing s3u).

Definition snap2 : Row :=
  ("e"%string,
   set_claimed "worker-2" (timedelta_seconds 330) (timedelta_seconds 300)
     (set_rescued (timedelta_seconds 240) snap1.2)).

Definition s5 : Sys :=
  mkSys (_process_job Examples.w1 snap1 Examples.exits_1 (world s4)).2
    ([snap2] ++ []) (rescuing s4).


Definition until_dead : list Label :=
  [ LProcess Examples.w1 snap1 Examples.exits_1;
    LClaim Examples.w2;
    LRescueUpdate ["e"%string];
    LRescueSelect 60;
    LClaim Examples.w1;
    LEnqueue "e" "flaky" 1 None 0 None ].









(** Third run: job "a" with three attempts allowed is claimed and
    succeeds at once. *)
Definition g1 : Sys :=
  mkSys (enqueue "a" "true" 3 None 0 None (world s0)).2
    (inflight s0) (rescuing s0).

Definition g2 : Sys :=
  mkSys (_claim_one_ready_job Examples.w1 (world g1)).2
    (claimed (_claim_one_ready_job Examples.w1 (world g1)).1 (inflight g1))
    (rescuing g1).

Definition snap_a : Row :=
  ("a"%string,
   set_claimed "worker-1" (timedelta_seconds 90) (timedelta_seconds 60)
     (new_job "true" 3 None 0 None 0)).

Definition g3 : Sys :=
  mkSys (_process_job Examples.w1 snap_a Examples.quiet_0 (world g2)).2
    ([] ++ []) (rescuing g2).

Definition straight : list Label :=
  [ LProcess Examples.w1 snap_a Examples.quiet_0;
    LClaim Examples.w1;
    LEnqueue "a" "true" 3 None 0 None ].







End LateRun.

(** ** The config table ([storage.py]) and the listings of [cli.py] *)

Module Storage.

(** A row of the [config] table without its key. *)
Record ConfigRow := mkConfigRow {
  value : string;
  config_updated_at : Z
}.

(** [get_config(key, default)]; [default=None] is the absent default. *)
Definition get_config (key : string) (default : option string)
    (cfg : gmap string ConfigRow) : option string :=
  match cfg !! key with
  | Some row => Some (value row)
  | None => default
  end.

(** [set_config(key, value)], for a [value] that is already a string;
    [now] is the clock reading the function takes.  The upsert replaces
    both columns of an existing row. *)
Definition set_config (key val : string) (now : Z)
    (cfg : gmap string ConfigRow) : gmap string ConfigRow :=
  match cfg !! key with
  | Some _ => alter (fun _ => mkConfigRow val now) key cfg
  | None => <[key := mkConfigRow val now]> cfg
  end.

End Storage.

Module Listing.

(** [ORDER BY created_at]: rows with equal keys keep the scan order. *)
Fixpoint insert_by_created (x : Row) (l : list Row) : list Row :=
  match l with
  | [] => [x]
  | y :: l' =>
      if created_at y.2 <=? created_at x.2
      then y :: insert_by_created x l'
      else x :: y :: l'
  end.

Definition order_by_created (l : list Row) : list Row :=
  foldl (fun acc x => insert_by_created x acc) [] l.

(** [x] may come before [y] in a listing ordered by [created_at]. *)
Definition by_created (x y : Row) : Prop :=
  created_at x.2 <= created_at y.2.

(** The text stored in the [state] column. *)
Definition state_name (s : State) : string :=
  match s with
  | pending => "pending"
  | processing => "processing"
  | completed => "completed"
  | failed => "failed"
  | dead => "dead"
  end.

(** [dlq list]: the rows the command prints, in its order. *)
Definition dlq_list (t : Table) : list Row :=
  order_by_created (Sql.select (fun _ r => bool_decide (state r = dead)) t).

(** [list --state S]: an absent or empty filter lists every job. *)
Definition list_jobs (filter : option string) (t : Table) : list Row :=
  match filter with
  | None | Some "" => order_by_created (Sql.select (fun _ _ => true) t)
  | Some s =>
      order_by_created
        (Sql.select (fun _ r => bool_decide (state_name (state r) = s)) t)
  end.

(** [status]: [SELECT state, COUNT( * ) ... GROUP BY state], one line per
    state that has rows. *)
Definition count_state (s : State) (t : Table) : nat :=
  length (Sql.select (fun _ r => bool_decide (state r = s)) t).

Definition status (t : Table) : list (State * nat) :=
  List.filter (fun line : State * nat => negb (Nat.eqb line.2 0))
    ((fun s => (s, count_state s t))
       <$> [completed; dead; failed; pending; processing]).

End Listing.

(** A clock that never goes back. *)
Definition nondecreasing (w : World) : Prop :=
  forall n, clock w n <= clock w (S n).

(** The world [w] at a later moment with nothing written in between: the
    same table under any clock state. *)
Definition same_store (w w' : World) : Prop := jobs w' = jobs w.

Module MoreExamples.

(** Job "z": a timeout of 0 seconds, and a child that runs for an hour. *)
Definition job_z : Row :=
  ("z"%string,
   set_claimed "worker-1" 31000000 1000000
     (new_job "sleep 3600" 3 (Some 0) 0 None 0)).

Definition claimed_z : World :=
  mkWorld {[ "z"%string := job_z.2 ]} Examples.seconds_clock 3 0.

Definition sleeps_hour : Child := mkChild 3600000000 0 "done" "".

(** The store after the first failure of job "b". *)
Definition failed_b : World :=
  (_handle_failure Examples.w1 Examples.job_b 1 7 5 (Some "boom"%string)
     Examples.claimed_b).2.

End MoreExamples.
(** ** Facts about the SQL fragments *)

#[global] Arguments Sql.update : simpl never.
#[global] Arguments Sql.select : simpl never.

Section SqlFacts.

Implicit Types (t : Table) (k : string) (r : Job) (wh : string -> Job -> bool).

Lemma select_spec wh t k r :
  (k, r) ∈ Sql.select wh t <-> t !! k = Some r /\ wh k r = true.
Proof.
  unfold Sql.select. rewrite list_elem_of_In, filter_In, <- list_elem_of_In.
  now rewrite elem_of_map_to_list.
Qed.

Lemma select_keys_NoDup wh t : NoDup (Sql.select wh t).*1.
Proof.
  unfold Sql.select.
  assert (H : NoDup (map_to_list t).*1) by apply NoDup_fst_map_to_list.
  induction (map_to_list t) as [|[k r] l IH]; simpl in *; [constructor|].
  apply NoDup_cons in H as [Hk Hl].
  destruct (wh k r); simpl; [|now apply IH].
  apply NoDup_cons. split; [|now apply IH].
  intros Hin. apply Hk.
  apply list_elem_of_fmap in Hin as [[k' r'] [-> Hin]]. simpl.
  apply list_elem_of_In, filter_In in Hin as [Hin _].
  apply list_elem_of_fmap. exists (k', r'). split; [done|].
  now apply list_elem_of_In.
Qed.

Lemma update_lookup wh set t k :
  (Sql.update wh set t).1 !! k
  = (fun r => if wh k r then set r else r) <$> (t !! k).
Proof.
  unfold Sql.update. simpl. rewrite map_lookup_imap.
  now destruct (t !! k).
Qed.

(** With a WHERE clause that fixes the primary key, [rowcount] is 1 when
    the row exists and passes the remaining guard. *)
Lemma update_rowcount_key (g : Job -> bool) set t k r :
  t !! k = Some r -> g r = true ->
  (Sql.update (fun k' r' => bool_decide (k' = k) && g r') set t).2 = 1.
Proof.
  intros Hk Hg. unfold Sql.update. simpl.
  set (wh := fun k' r' => bool_decide (k' = k) && g r').
  assert (Hin : (k, r) ∈ Sql.select wh t).
  { apply select_spec. split; [done|]. unfold wh.
    now rewrite bool_decide_eq_true_2, Hg. }
  assert (Hall : forall x, x ∈ Sql.select wh t -> x.1 = k).
  { intros [k' r'] Hx. apply select_spec in Hx as [_ Hx]. unfold wh in Hx.
    apply andb_true_iff in Hx as [Hx _]. now apply bool_decide_eq_true in Hx. }
  pose proof (select_keys_NoDup wh t) as Hnd.
  destruct (Sql.select wh t) as [|x [|y l]]; simpl in *.
  - now apply elem_of_nil in Hin.
  - reflexivity.
  - exfalso. apply NoDup_cons in Hnd as [Hx _]. apply Hx.
    rewrite (Hall x), <- (Hall y); [left | right; left | left].
Qed.

Lemma update_key_table (g : Job -> bool) set t k r :
  t !! k = Some r -> g r = true ->
  (Sql.update (fun k' r' => bool_decide (k' = k) && g r') set t).1
  = <[k := set r]> t.
Proof.
  intros Hk Hg. apply map_eq. intros k'. rewrite update_lookup.
  destruct (decide (k' = k)) as [->|Hne].
  - rewrite lookup_insert_eq, Hk. simpl.
    now rewrite bool_decide_eq_true_2, Hg.
  - rewrite lookup_insert_ne by done.
    destruct (t !! k'); simpl; [|done].
    now rewrite bool_decide_eq_false_2.
Qed.

Lemma update_by_id_table set t k :
  (Sql.update (by_id k) set t).1 = alter set k t.
Proof.
  apply map_eq. intros k'. rewrite update_lookup. unfold by_id.
  destruct (decide (k' = k)) as [->|Hne].
  - rewrite lookup_alter_eq. destruct (t !! k); simpl; [|done].
    now rewrite bool_decide_eq_true_2.
  - rewrite lookup_alter_ne by done.
    destruct (t !! k'); simpl; [|done].
    now rewrite bool_decide_eq_false_2.
Qed.

Lemma before_irrefl (a : Row) : Sql.before a a = false.
Proof.
  unfold Sql.before.
  rewrite !Z.ltb_irrefl, andb_false_r. reflexivity.
Qed.

Lemma before_spec (a b : Row) :
  Sql.before a b = false <->
  priority a.2 <= priority b.2
  /\ (priority a.2 = priority b.2 -> created_at b.2 <= created_at a.2).
Proof.
  unfold Sql.before. rewrite orb_false_iff, andb_false_iff.
  rewrite !Z.ltb_ge, Z.eqb_neq. lia.
Qed.

Lemma first_by_None (rows : list Row) :
  Sql.first_by rows = None <-> rows = [].
Proof.
  destruct rows as [|r rest]; simpl; [done|].
  split; [|done]. destruct (Sql.first_by rest) as [b|]; [|done].
  now destruct (Sql.before b r).
Qed.

Lemma first_by_elem (rows : list Row) (b : Row) :
  Sql.first_by rows = Some b -> b ∈ rows.
Proof.
  revert b. induction rows as [|r rest IH]; intros b; simpl; [done|].
  destruct (Sql.first_by rest) as [b'|].
  - destruct (Sql.before b' r); intros [= <-]; [right; now apply IH | left].
  - intros [= <-]. left.
Qed.

(** No row of the result set sorts strictly before the one [LIMIT 1]
    keeps. *)
Lemma first_by_best (rows : list Row) (b x : Row) :
  Sql.first_by rows = Some b -> x ∈ rows -> Sql.before x b = false.
Proof.
  revert b x. induction rows as [|r rest IH]; intros b x; simpl; [done|].
  destruct (Sql.first_by rest) as [b'|] eqn:Hrest.
  - destruct (Sql.before b' r) eqn:Hb; intros [= <-] Hx;
      apply elem_of_cons in Hx as [->|Hx].
    + apply before_spec. unfold Sql.before in Hb.
      apply orb_true_iff in Hb. rewrite andb_true_iff in Hb.
      rewrite !Z.ltb_lt, Z.eqb_eq in Hb. lia.
    + now apply IH.
    + apply before_irrefl.
    + specialize (IH b' x eq_refl Hx).
      apply before_spec in IH. apply before_spec in Hb.
      apply before_spec. lia.
  - intros [= <-] Hx. apply first_by_None in Hrest. subst rest.
    apply elem_of_cons in Hx as [->|Hx]; [apply before_irrefl|].
    now apply elem_of_nil in Hx.
Qed.

End SqlFacts.

(** ** Run equations of the operations *)

Section RunEquations.


Implicit Types (w : World) (t : Table) (self : Worker) (job : Row).

Lemma bind_run {A B} (m : M A) (f : A -> M B) w :
  (m ≫= f) w = f (m w).1 (m w).2.
Proof. unfold mbind, M_bind. now destruct (m w). Qed.

Lemma ret_run {A} (x : A) w : (mret x : M A) w = (x, w).
Proof. reflexivity. Qed.

Lemma utcnow_run w : utcnow w = (clock w (tick w), ticked 1 (jobs w) w).
Proof. reflexivity. Qed.

Lemma now_run w : _now w = (clock w (tick w), ticked 1 (jobs w) w).
Proof. reflexivity. Qed.

Lemma execute_update_run wh set w :
  execute_update wh set w
  = ((Sql.update wh set (jobs w)).2,
     ticked 0 (Sql.update wh set (jobs w)).1 w).
Proof.
  unfold execute_update. rewrite bind_run. simpl.
  now destruct (Sql.update wh set (jobs w)).
Qed.

Lemma log_transition_run w :
  _log_transition w = (tt, ticked 1 (jobs w) w).
Proof. reflexivity. Qed.

Ltac run :=
  repeat (rewrite ?bind_run, ?now_run, ?utcnow_run, ?execute_update_run,
            ?log_transition_run, ?ret_run;
          cbn [fst snd jobs clock tick utc_offset ticked Nat.add
               get_jobs put_jobs get_utc_offset]).

Lemma add_seconds_Some dt s x :
  Datetime.add_seconds dt s = Some x -> x = dt + timedelta_seconds s.
Proof.
  unfold Datetime.add_seconds. destruct (_ && _); congruence.
Qed.

Lemma claim_run self w :
  _claim_one_ready_job self w =
  match Datetime.add_seconds (clock w (tick w)) (lease_seconds self) with
  | None => (Raised OverflowError, ticked 1 (jobs w) w)
  | Some lease =>
      match Sql.first_by
              (Sql.select (fun _ r => ready (clock w (tick w)) r) (jobs w))
      with
      | None => (Returned None, ticked 1 (jobs w) w)
      | Some row =>
          let r' := set_claimed (self_worker_id self) lease
                      (clock w (tick w)) row.2 in
          (Returned (Some (row.1, r')),
           ticked 2 (<[row.1 := r']> (jobs w)) w)
      end
  end.
Proof.
  unfold _claim_one_ready_job. run.
  destruct (Datetime.add_seconds _ _) as [lease|]; run; [|reflexivity].
  destruct (Sql.first_by _) as [[k r]|] eqn:Hsel; simpl; [|reflexivity].
  apply first_by_elem, select_spec in Hsel as [Hk Hready].
  assert (Hfree : lease_free (clock w (tick w)) r = true).
  { unfold ready in Hready. now apply andb_true_iff in Hready as [_ ?]. }
  run.
  erewrite (update_rowcount_key (lease_free (clock w (tick w))) _ _ _ _ Hk Hfree).
  change (1 =? 1) with true. cbn iota. run.
  erewrite (update_key_table (lease_free (clock w (tick w))) _ _ _ _ Hk Hfree).
  rewrite lookup_insert_eq.
  reflexivity.
Qed.

Lemma handle_failure_run self job exit now_iso duration err w :
  let write := failure_write self job exit now_iso duration err
                 (clock w (tick w)) in
  (_handle_failure self job exit now_iso duration err w).1 = outcome_of write
  /\ jobs (_handle_failure self job exit now_iso duration err w).2
     = alter (default id write) job.1 (jobs w)
  /\ clock (_handle_failure self job exit now_iso duration err w).2 = clock w
  /\ utc_offset (_handle_failure self job exit now_iso duration err w).2
     = utc_offset w.
Proof.
  unfold _handle_failure, failure_write. cbv zeta.
  assert (Hid : alter id job.1 (jobs w) = jobs w).
  { apply map_eq. intros k. destruct (decide (k = job.1)) as [->|Hne].
    - rewrite lookup_alter_eq. now destruct (jobs w !! job.1).
    - now rewrite lookup_alter_ne. }
  destruct (max_retries job.2 <=? or_zero (attempts job.2) + 1).
  - destruct (sqlite_integer _); run; cbn [default outcome_of];
      rewrite ?Hid, ?update_by_id_table; done.
  - run. destruct (Datetime.add_seconds _ _) as [next|];
      cbn [fmap option_fmap option_map];
      destruct (sqlite_integer _); run; cbn [default outcome_of];
      rewrite ?Hid, ?update_by_id_table; done.
Qed.

Lemma process_job_run self job c w :
  (_process_job self job c w).1 = outcome_of (attempt_write self job c w)
  /\ jobs (_process_job self job c w).2
     = alter (default id (attempt_write self job c w)) job.1 (jobs w)
  /\ clock (_process_job self job c w).2 = clock w
  /\ utc_offset (_process_job self job c w).2 = utc_offset w.
Proof.
  unfold _process_job, attempt_write. run.
  destruct (subprocess_run _ _) as [rc out err|]; run.
  - destruct (rc =? 0); run.
    + now rewrite update_by_id_table.
    + apply (handle_failure_run self job rc _ _ (Some err)
               (ticked 3 (jobs w) w)).
  - apply (handle_failure_run self job (-1) _ _ (Some "timeout"%string)
             (ticked 3 (jobs w) w)).
Qed.

Lemma dlq_retry_run job_id w :
  dlq_retry job_id w =
  (tt, ticked 1
         (Sql.update
            (fun k r => bool_decide (k = job_id) && bool_decide (state r = dead))
            (set_retried (clock w (tick w))) (jobs w)).1 w).
Proof. unfold dlq_retry. run. reflexivity. Qed.

Lemma rescue_leases_run older w :
  rescue_leases older w =
  let cutoff_iso :=
    utcfromtimestamp
      (timestamp (utc_offset w) (clock w (tick w)) - timedelta_seconds older) in
  let rows := Sql.select (fun _ r => expired_lease cutoff_iso r) (jobs w) in
  match rows with
  | [] => ([], ticked 1 (jobs w) w)
  | _ =>
      (rows.*1,
       ticked 2
         (Sql.update (fun k _ => bool_decide (k ∈ rows.*1))
            (set_rescued (clock w (S (tick w)))) (jobs w)).1 w)
  end.
Proof.
  unfold rescue_leases. run.
  destruct (Sql.select _ _) as [|x l]; run; reflexivity.
Qed.

Lemma enqueue_jobs id cmd retries timeout prio ra w :
  jobs (enqueue id cmd retries timeout prio ra w).2 = jobs w
  \/ exists scheduled now,
       jobs w !! id = None
       /\ jobs (enqueue id cmd retries timeout prio ra w).2
          = <[id := new_job cmd retries timeout prio scheduled now]> (jobs w).
Proof.
  unfold enqueue. run.
  destruct ra as [[n|[|a s]|]|]; run;
    try (destruct (Datetime.add_seconds _ n) as [t'|];
         cbn [fmap option_fmap option_map]; run);
    try (now left);
    (destruct (sqlite_integer retries && sqlite_integer prio
               && from_option sqlite_integer true timeout); run;
     [|now left]);
    (destruct (jobs w !! id) eqn:Hid; run; [now left | right; eauto]).
Qed.

Lemma rescue_select_run older w :
  rescue_select older w
  = ((Sql.select (fun _ r => expired_lease (rescue_cutoff older w) r)
        (jobs w)).*1,
     ticked 1 (jobs w) w).
Proof. unfold rescue_select. run. reflexivity. Qed.

Lemma rescue_update_run ids w :
  rescue_update ids w
  = (tt, ticked 1
           (Sql.update (fun k _ => bool_decide (k ∈ ids))
              (set_rescued (clock w (tick w))) (jobs w)).1 w).
Proof. unfold rescue_update. run. reflexivity. Qed.

(** [rescue_leases] is its SELECT followed, when ids were found, by its
    UPDATE. *)
Lemma rescue_leases_split older w :
  rescue_leases older w
  = match (rescue_select older w).1 with
    | [] => ([], (rescue_select older w).2)
    | ids => (ids, (rescue_update ids (rescue_select older w).2).2)
    end.
Proof.
  rewrite rescue_leases_run, rescue_select_run. cbv zeta.
  change (utcfromtimestamp _) with (rescue_cutoff older w).
  cbn [fst snd]. destruct (Sql.select _ _) as [|x l]; [reflexivity|].
  cbn [fmap list_fmap]. rewrite rescue_update_run. reflexivity.
Qed.

End RunEquations.

(** ** The Claimer *)

Section Claimer.

Implicit Types (w : World) (self : Worker) (r j : Job) (id k : string).

Lemma le_spec (col : option Z) (v : Z) :
  Sql.le col v = true <-> exists t, col = Some t /\ t <= v.
Proof.
  destruct col as [x|]; simpl.
  - rewrite Z.leb_le. split; [eauto|]. now intros (t & [= <-] & Hle).
  - split; [done|]. now intros (t & Ht & _).
Qed.

Lemma is_null_spec {A} (col : option A) :
  Sql.is_null col = true <-> col = None.
Proof. now destruct col. Qed.

Lemma run_gate_spec now r :
  run_gate now r = true <->
  forall s, run_at r = Some s ->
            String.leb s (Datetime.isoformat now) = true.
Proof.
  unfold run_gate. destruct (run_at r) as [s|]; simpl.
  - split; [now intros H s' [= <-] | eauto].
  - split; [done|reflexivity].
Qed.

Lemma ready_spec now r :
  ready now r = true <->
  (state r = pending
   \/ (state r = failed /\ exists t, next_run_at r = Some t /\ t <= now))
  /\ run_gate now r = true
  /\ (lease_until r = None \/ exists t, lease_until r = Some t /\ t <= now).
Proof.
  unfold ready, run_gate.
  rewrite !andb_true_iff, !orb_true_iff, !andb_true_iff.
  rewrite !bool_decide_eq_true, !le_spec, !is_null_spec, negb_true_iff.
  split.
  - intros [[[Hp|[Hf [_ Hnext]]] Hrun] Hlease]; repeat split; auto.
  - intros [[Hp|[Hf (t & Ht & Hle)]] [Hrun Hlease]]; repeat split; auto.
    right. split; [done|]. split; [now rewrite Ht | eauto].
Qed.

(** What a successful claim did: the row it picked was ready, no ready row
    sorts before it, and the only change to the table is the lease written
    on that row. *)
Lemma claim_some self w id j :
  (_claim_one_ready_job self w).1 = Returned (Some (id, j)) ->
  exists r,
    jobs w !! id = Some r
    /\ ready (clock w (tick w)) r = true
    /\ j = set_claimed (self_worker_id self)
             (clock w (tick w) + timedelta_seconds (lease_seconds self))
             (clock w (tick w)) r
    /\ jobs (_claim_one_ready_job self w).2 = <[id := j]> (jobs w)
    /\ forall k r2, jobs w !! k = Some r2 ->
         ready (clock w (tick w)) r2 = true ->
         Sql.before (k, r2) (id, r) = false.
Proof.
  rewrite claim_run.
  destruct (Datetime.add_seconds _ _) as [lease|] eqn:Hlease; [|done].
  apply add_seconds_Some in Hlease. subst lease.
  destruct (Sql.first_by _) as [[k0 r0]|] eqn:Hsel; simpl; [|done].
  intros [= <- <-]. exists r0.
  pose proof (first_by_elem _ _ Hsel) as Hin.
  apply select_spec in Hin as [Hk Hr].
  repeat split; try done.
  intros k r2 Hk2 Hr2. apply (first_by_best _ _ _ Hsel).
  now apply select_spec.
Qed.

Lemma claim_none self w :
  (_claim_one_ready_job self w).1 = Returned None ->
  jobs (_claim_one_ready_job self w).2 = jobs w
  /\ forall k r, jobs w !! k = Some r -> ready (clock w (tick w)) r = false.
Proof.
  rewrite claim_run.
  destruct (Datetime.add_seconds _ _) as [lease|]; [|done].
  destruct (Sql.first_by _) as [[k0 r0]|] eqn:Hsel; simpl; [done|].
  intros _. split; [done|]. intros k r Hk.
  apply first_by_None in Hsel.
  destruct (ready (clock w (tick w)) r) eqn:Hr; [|done].
  assert (Hin : (k, r) ∈ Sql.select (fun _ r => ready (clock w (tick w)) r) (jobs w))
    by now apply select_spec.
  rewrite Hsel in Hin. now apply elem_of_nil in Hin.
Qed.

(** A claim raises exactly when the end of its lease is no [datetime];
    it has then written nothing. *)
Lemma claim_raised self w :
  ((exists e, (_claim_one_ready_job self w).1 = Raised e) <->
   Datetime.add_seconds (clock w (tick w)) (lease_seconds self) = None)
  /\ (forall e, (_claim_one_ready_job self w).1 = Raised e ->
        jobs (_claim_one_ready_job self w).2 = jobs w).
Proof.
  rewrite claim_run.
  destruct (Datetime.add_seconds _ _) as [lease|].
  - destruct (Sql.first_by _) as [[k0 r0]|]; simpl;
      (split; [split; [now intros [e ?] | done] | done]).
  - simpl. split; [split; eauto | done].
Qed.

Lemma claim_finds self w k r :
  is_Some (Datetime.add_seconds (clock w (tick w)) (lease_seconds self)) ->
  jobs w !! k = Some r -> ready (clock w (tick w)) r = true ->
  exists id j, (_claim_one_ready_job self w).1 = Returned (Some (id, j)).
Proof.
  intros [lease Hlease] Hk Hr.
  destruct (_claim_one_ready_job self w).1 as [[[id j]|]|e] eqn:Hc; [eauto| |].
  - apply claim_none in Hc as [_ Hc]. rewrite (Hc _ _ Hk) in Hr. done.
  - destruct (claim_raised self w) as [[Hraise _] _].
    rewrite Hraise in Hlease; [done | eauto].
Qed.

(** C4. Over a non-empty set of ready jobs a claim returns a job, provided
    the end of its lease is a [datetime]; the job a claim returns has the
    maximal priority among the ready jobs, and among the ready jobs of
    that priority none has an older [created_at]. *)
Theorem claim_returns_best_ready self w :
  (exists k r, jobs w !! k = Some r /\ ready (clock w (tick w)) r = true) ->
  (is_Some (Datetime.add_seconds (clock w (tick w)) (lease_seconds self)) ->
   exists id j, (_claim_one_ready_job self w).1 = Returned (Some (id, j)))
  /\ forall id j,
       (_claim_one_ready_job self w).1 = Returned (Some (id, j)) ->
       exists r,
         jobs w !! id = Some r
         /\ ready (clock w (tick w)) r = true
         /\ priority j = priority r /\ created_at j = created_at r
         /\ forall k r2, jobs w !! k = Some r2 ->
              ready (clock w (tick w)) r2 = true ->
              priority r2 <= priority j
              /\ (priority r2 = priority j -> created_at j <= created_at r2).
Proof.
  intros (k & r & Hk & Hr). split.
  - intros Hlease. exact (claim_finds self w k r Hlease Hk Hr).
  - intros id j Hc.
    destruct (claim_some _ _ _ _ Hc) as (r0 & Hid & Hr0 & -> & _ & Hbest).
    exists r0. repeat split; try done.
    + simpl. now apply (before_spec (k0, r2) (id, r0)), Hbest.
    + simpl. intros Heq.
      now apply (before_spec (k0, r2) (id, r0)); [apply Hbest|].
Qed.

(** C5, as the code has it.  The job a claim returns has a [run_at] that
    is null or, compared as text, not after [now.isoformat()] - whatever
    instant that text was meant to name; and if its row was in state
    failed, its [next_run_at] is set and not after [now]. *)
Theorem claim_respects_gates self w id j :
  (_claim_one_ready_job self w).1 = Returned (Some (id, j)) ->
  exists r,
    jobs w !! id = Some r
    /\ run_at j = run_at r /\ next_run_at j = next_run_at r
    /\ (forall s, run_at r = Some s ->
          String.leb s (Datetime.isoformat (clock w (tick w))) = true)
    /\ (state r = failed ->
        exists t, next_run_at r = Some t /\ t <= clock w (tick w)).
Proof.
  intros Hc.
  destruct (claim_some _ _ _ _ Hc) as (r & Hid & Hr & -> & _ & _).
  exists r. apply ready_spec in Hr as (Hst & Hrun & _).
  repeat split; try done.
  - now apply run_gate_spec.
  - intros Hf. destruct Hst as [Hp|[_ Hnext]]; [congruence|done].
Qed.

End Claimer.

(** ** Rescue and the dead-letter retry *)

Section Admin.

Implicit Types (w : World) (r : Job) (k : string).

Lemma expired_spec cutoff r :
  expired_lease cutoff r = true <->
  state r = processing /\ exists l, lease_until r = Some l /\ l <= cutoff.
Proof.
  unfold expired_lease. rewrite !andb_true_iff, bool_decide_eq_true, le_spec.
  split; [now intros [[? _] ?]|]. intros [Hs (l & Hl & Hle)].
  repeat split; eauto. now rewrite Hl.
Qed.

(** What one run of [rescue_leases] does: the rows it reports are the
    processing rows whose lease is at or before the cutoff, and exactly
    those rows are reset, stamped with the second clock reading. *)
Lemma rescue_leases_spec older w :
  (forall k, k ∈ (rescue_leases older w).1 <->
     exists r, jobs w !! k = Some r
               /\ expired_lease (rescue_cutoff older w) r = true)
  /\ (forall k, jobs (rescue_leases older w).2 !! k
       = (fun r => if expired_lease (rescue_cutoff older w) r
                   then set_rescued (clock w (S (tick w))) r else r)
         <$> (jobs w !! k)).
Proof.
  rewrite rescue_leases_run. cbv zeta.
  change (utcfromtimestamp _) with (rescue_cutoff older w).
  set (rows := Sql.select _ (jobs w)).
  assert (Hrows : forall k, k ∈ rows.*1 <->
            exists r, jobs w !! k = Some r
                      /\ expired_lease (rescue_cutoff older w) r = true).
  { intros k. rewrite list_elem_of_fmap. split.
    - intros ([k' r] & -> & Hin). apply select_spec in Hin. eauto.
    - intros (r & Hk & He). exists (k, r). split; [done|].
      now apply select_spec. }
  assert (Hupd : forall k,
            (Sql.update (fun k _ => bool_decide (k ∈ rows.*1))
               (set_rescued (clock w (S (tick w)))) (jobs w)).1 !! k
            = (fun r => if expired_lease (rescue_cutoff older w) r
                        then set_rescued (clock w (S (tick w))) r else r)
              <$> (jobs w !! k)).
  { intros k. rewrite update_lookup.
    destruct (jobs w !! k) as [r|] eqn:Hk; simpl; [|done]. f_equal.
    destruct (expired_lease (rescue_cutoff older w) r) eqn:He.
    - rewrite bool_decide_eq_true_2; [done|]. apply Hrows; eauto.
    - rewrite bool_decide_eq_false_2; [done|]. intros Hin.
      apply Hrows in Hin as (r' & Hk' & He'). congruence. }
  destruct rows as [|x l] eqn:Hl; simpl fst; simpl snd.
  - split; [exact Hrows|]. intros k. simpl.
    destruct (jobs w !! k) as [r|] eqn:Hk; simpl; [|done]. f_equal.
    destruct (expired_lease (rescue_cutoff older w) r) eqn:He; [|done].
    exfalso. assert (Hin : k ∈ ([] : list Row).*1) by (apply Hrows; eauto).
    simpl in Hin. now apply elem_of_nil in Hin.
  - split; [exact Hrows|]. exact Hupd.
Qed.

(** On a host whose local time is UTC, a run of [rescue_leases] whose two
    clock readings agree resets exactly the processing rows with
    [lease_until <= now - older_than_seconds], stamps them with [now],
    leaves their [attempts] alone and reports exactly their ids. *)
Lemma rescue_leases_on_utc_host older w now :
  utc_offset w = 0 -> clock w (tick w) = now -> clock w (S (tick w)) = now ->
  forall k r, jobs w !! k = Some r ->
    let due := state r = processing
               /\ exists l, lease_until r = Some l
                            /\ l <= now - timedelta_seconds older in
    (k ∈ (rescue_leases older w).1 <-> due)
    /\ exists r', jobs (rescue_leases older w).2 !! k = Some r'
         /\ attempts r' = attempts r
         /\ (due -> state r' = pending /\ worker_id r' = None
                    /\ lease_until r' = None /\ updated_at r' = now)
         /\ (~ due -> r' = r).
Proof.
  intros Hoff Hnow Hnow2 k r Hk.
  destruct (rescue_leases_spec older w) as [Hids Htab].
  assert (Hcut : rescue_cutoff older w = now - timedelta_seconds older).
  { unfold rescue_cutoff, timedelta_seconds. rewrite Hoff, Hnow. lia. }
  rewrite Hcut in *. cbv zeta. rewrite <- expired_spec. split.
  - rewrite Hids. split; [intros (r' & Hk' & He); congruence | eauto].
  - rewrite Htab, Hk. simpl. eexists. split; [reflexivity|].
    destruct (expired_lease _ r) eqn:He; simpl; rewrite ?Hnow2.
    + split; [done|]. split; [done|]. intros Hn.
      destruct Hn. now apply expired_spec.
    + split; [done|]. split; [|done]. intros Hd.
      apply expired_spec in Hd. congruence.
Qed.

(** C9. [dlq_retry] on a row in state dead sets it to pending with
    [attempts] 0, clears [error], [next_run_at], [worker_id] and
    [lease_until] and stamps [updated_at]; every other column, and every
    row that is not dead or has another id, is left as it was. *)
Theorem dlq_retry_resets_dead_only job_id w k r :
  jobs w !! k = Some r ->
  exists r',
    jobs (dlq_retry job_id w).2 !! k = Some r'
    /\ (k = job_id /\ state r = dead ->
        state r' = pending /\ attempts r' = 0 /\ error r' = None
        /\ next_run_at r' = None /\ worker_id r' = None
        /\ lease_until r' = None /\ updated_at r' = clock w (tick w)
        /\ r' = set_retried (clock w (tick w)) r)
    /\ (~ (k = job_id /\ state r = dead) -> r' = r).
Proof.
  intros Hk. rewrite dlq_retry_run. cbn [snd jobs ticked].
  rewrite update_lookup, Hk. simpl.
  eexists. split; [reflexivity|].
  destruct (decide (k = job_id)) as [->|Hne];
    [destruct (decide (state r = dead)) as [Hd|Hnd]|].
  - rewrite !bool_decide_eq_true_2 by done. simpl.
    split; [now repeat split|]. intros Hn. now destruct Hn.
  - rewrite (bool_decide_eq_false_2 (state r = dead)) by done.
    rewrite andb_false_r. split; [|done]. now intros [_ ?].
  - rewrite (bool_decide_eq_false_2 (k = job_id)) by done. simpl.
    split; [|done]. now intros [? _].
Qed.

Lemma dlq_retry_resets_dead_only_witness :
  let w := Examples.timed_out in
  exists r,
    (jobs w !! "d"%string = Some r /\ state r = dead /\ attempts r = 1
     /\ error r = Some "timeout"%string)
    /\ exists r',
         jobs (dlq_retry "d" w).2 !! "d"%string = Some r'
         /\ state r' = pending /\ attempts r' = 0 /\ error r' = None
         /\ next_run_at r' = None /\ worker_id r' = None
         /\ lease_until r' = None /\ updated_at r' = clock w (tick w)
         /\ exit_code r' = exit_code r /\ output r' = output r.
Proof.
  eassert (H1 : jobs Examples.timed_out !! "d"%string = Some _)
    by (vm_compute; reflexivity).
  eexists. split; [split; [exact H1 | repeat split]|].
  destruct (dlq_retry_resets_dead_only "d" Examples.timed_out "d" _ H1)
    as (r' & Hr' & Hdead & _).
  destruct (Hdead (conj eq_refl eq_refl))
    as (Hs & Ha & He & Hn & Hw & Hl & Hu & ->).
  eexists. split; [exact Hr'|]. repeat split.
Defined.

(** C8, at a failing input.  On a host five and a half hours east of UTC
    a processing row whose lease ended 169 seconds ago is not reset by
    [rescue_leases] with a grace period of 60 seconds, and no id is
    reported: the cutoff is taken [utc_offset] seconds too early. *)
Theorem rescue_leases_misses_expired_lease_off_utc :
  let w := Examples.crashed_ist in
  let now := clock w (tick w) in
  (exists r, jobs w !! "e"%string = Some r
     /\ state r = processing
     /\ lease_until r = Some (timedelta_seconds 31)
     /\ timedelta_seconds 31 <= now - timedelta_seconds 60)
  /\ (rescue_leases 60 w).1 = []
  /\ jobs (rescue_leases 60 w).2 = jobs w.
Proof.
  split; [|split].
  - eexists. split; [vm_compute; reflexivity|]. now vm_compute.
  - now vm_compute.
  - now vm_compute.
Qed.

(** On a host west of UTC the cutoff lies in the future: a lease that
    still has eleven seconds to run is taken from its live worker. *)
Lemma rescue_leases_takes_live_lease_off_utc :
  let w := Examples.live_est in
  let now := clock w (tick w) in
  (exists r, jobs w !! "e"%string = Some r
     /\ state r = processing
     /\ lease_until r = Some (timedelta_seconds 31)
     /\ now < timedelta_seconds 31)
  /\ (rescue_leases 60 w).1 = ["e"%string]
  /\ exists r', jobs (rescue_leases 60 w).2 !! "e"%string = Some r'
                /\ state r' = pending.
Proof.
  split; [|split].
  - eexists. split; [vm_compute; reflexivity|]. now vm_compute.
  - now vm_compute.
  - eexists. split; [vm_compute; reflexivity|]. reflexivity.
Qed.

End Admin.

(** ** Lease recovery *)

Section Recovery.

Implicit Types (w : World) (self : Worker) (r j : Job) (id k : string).

(** A claim changes no row's [attempts]. *)
Lemma claim_keeps_attempts self w k r :
  jobs w !! k = Some r ->
  exists r', jobs (_claim_one_ready_job self w).2 !! k = Some r'
             /\ attempts r' = attempts r.
Proof.
  intros Hk.
  destruct (_claim_one_ready_job self w).1 as [[[id j]|]|e] eqn:Hc.
  - destruct (claim_some _ _ _ _ Hc) as (r0 & Hid & _ & -> & -> & _).
    destruct (decide (k = id)) as [->|Hne].
    + rewrite lookup_insert_eq. eexists. split; [reflexivity|].
      simpl. congruence.
    + rewrite lookup_insert_ne by done. eauto.
  - apply claim_none in Hc as [-> _]. eauto.
  - apply (proj2 (claim_raised self w)) in Hc. rewrite Hc. eauto.
Qed.




Lemma claim_returns_best_ready_witness :
  let w := Examples.two_jobs in
  ((exists k r, jobs w !! k = Some r /\ ready (clock w (tick w)) r = true)
   /\ is_Some (Datetime.add_seconds (clock w (tick w))
                 (lease_seconds Examples.w1)))
  /\ exists id j r,
       (_claim_one_ready_job Examples.w1 w).1 = Returned (Some (id, j))
       /\ jobs w !! id = Some r
       /\ priority j = priority r /\ created_at j = created_at r
       /\ forall k r2, jobs w !! k = Some r2 ->
            ready (clock w (tick w)) r2 = true ->
            priority r2 <= priority j
            /\ (priority r2 = priority j -> created_at j <= created_at r2).
Proof.
  assert (H : exists k r, jobs Examples.two_jobs !! k = Some r
              /\ ready (clock Examples.two_jobs (tick Examples.two_jobs)) r
                 = true).
  { exists "lo"%string, (new_job "true" 3 None 0 None 0).
    split; vm_compute; reflexivity. }
  assert (Hl : is_Some (Datetime.add_seconds
                          (clock Examples.two_jobs (tick Examples.two_jobs))
                          (lease_seconds Examples.w1)))
    by (eexists; vm_compute; reflexivity).
  split; [exact (conj H Hl)|].
  destruct (claim_returns_best_ready Examples.w1 Examples.two_jobs H)
    as [Hsome Hbest].
  destruct (Hsome Hl) as (id & j & Hc).
  destruct (Hbest id j Hc) as (r & Hr & _ & Hp & Hcr & Hall).
  exists id, j, r.
  split; [exact Hc|]. split; [exact Hr|]. split; [exact Hp|].
  split; [exact Hcr | exact Hall].
Defined.

Lemma claim_respects_gates_witness :
  let w := Examples.retry_c in
  let r := set_failed 1 1 (Some "boom"%string) 7000000 4000000 2000000
             (set_claimed "worker-1" 31000000 1000000
                (new_job "false" 2 None 0
                   (Some "1970-01-01T00:00:00"%string) 0)) in
  let j := set_claimed "worker-2" 38000000 8000000 r in
  (_claim_one_ready_job Examples.w2 w).1 = Returned (Some ("c"%string, j))
  /\ jobs w !! "c"%string = Some r
  /\ state r = failed
  /\ String.leb "1970-01-01T00:00:00"
       (Datetime.isoformat (clock w (tick w))) = true
  /\ exists t, next_run_at r = Some t /\ t <= clock w (tick w).
Proof.
  eassert (H : (_claim_one_ready_job Examples.w2 Examples.retry_c).1
               = Returned (Some ("c"%string, _)))
    by (vm_compute; reflexivity).
  split; [exact H|].
  destruct (claim_respects_gates Examples.w2 Examples.retry_c _ _ H)
    as (r & Hr & _ & _ & Hrun & Hnext).
  assert (Hrow : jobs Examples.retry_c !! "c"%string
                 = Some (set_failed 1 1 (Some "boom"%string) 7000000 4000000
                           2000000
                           (set_claimed "worker-1" 31000000 1000000
                              (new_job "false" 2 None 0
                                 (Some "1970-01-01T00:00:00"%string) 0))))
    by (vm_compute; reflexivity).
  rewrite Hrow in Hr. injection Hr as <-.
  split; [exact Hrow|]. split; [reflexivity|].
  split; [apply Hrun; reflexivity | apply Hnext; reflexivity].
Defined.

(** The claim as written fails on the code: job "s" was enqueued with
    [--run-at "1970-01-01 23:59:59"], the layout of [str(datetime)]; a
    claim at 00:00:01 returns it, since the space sorts before the T of
    [now.isoformat()]. *)
Lemma claim_returns_a_job_scheduled_for_later :
  let w := Examples.scheduled_s in
  clock w (tick w) = timedelta_seconds 1
  /\ Datetime.isoformat_sep " " (timedelta_seconds 86399)
     = "1970-01-01 23:59:59"%string
  /\ (exists j, (_claim_one_ready_job Examples.w2 w).1
                = Returned (Some ("s"%string, j))
                /\ run_at j = Some "1970-01-01 23:59:59"%string)
  /\ ~ run_at_not_after_now Examples.w2 w.
Proof.
  split; [reflexivity|]. split; [vm_compute; reflexivity|].
  eassert (H : (_claim_one_ready_job Examples.w2 Examples.scheduled_s).1
               = Returned (Some ("s"%string, _)))
    by (vm_compute; reflexivity).
  split; [eexists; split; [exact H | reflexivity]|].
  intros Hgate.
  specialize (Hgate _ _ " "%string (timedelta_seconds 86399) H).
  assert (Hle : timedelta_seconds 86399
                <= clock Examples.scheduled_s (tick Examples.scheduled_s))
    by (apply Hgate; vm_compute; reflexivity).
  vm_compute in Hle. now apply Hle.
Qed.

End Recovery.

(** ** The Settler *)

Section Settler.

Implicit Types (w : World) (self : Worker) (job : Row) (r : Job)
  (k : string) (c : Child).

Lemma or_zero_id (x : Z) : or_zero x = x.
Proof. unfold or_zero. destruct (Z.eqb_spec x 0); congruence. Qed.

Lemma succeeds_spec job c :
  succeeds job c = true <->
  subprocess_run c (truthy (timeout_seconds job.2))
  = CompletedProcess 0 (stdout c) (stderr c).
Proof.
  unfold succeeds, subprocess_run.
  destruct (truthy _) as [t|]; [destruct (_ <? _)|];
    rewrite ?Z.eqb_eq; split; try done; try congruence.
Qed.

(** The two SET clauses of [_handle_failure], by the branch taken. *)
Lemma failure_write_dead self job exit now_iso duration err now :
  count_fits job -> max_retries job.2 <= attempts job.2 + 1 ->
  failure_write self job exit now_iso duration err now
  = Some (set_dead (attempts job.2 + 1) exit err now_iso duration).
Proof.
  unfold failure_write, count_fits. rewrite or_zero_id. cbv zeta.
  intros -> Hle. apply Z.leb_le in Hle. now rewrite Hle.
Qed.

Lemma failure_write_failed self job exit now_iso duration err now :
  count_fits job -> attempts job.2 + 1 < max_retries job.2 ->
  retry_time_exists self job now ->
  failure_write self job exit now_iso duration err now
  = Some (set_failed (attempts job.2 + 1) exit err
            (now + timedelta_seconds (backoff_base self ^ (attempts job.2 + 1)))
            now_iso duration).
Proof.
  unfold failure_write, count_fits, retry_time_exists.
  rewrite or_zero_id. cbv zeta.
  intros -> Hlt [next Hnext]. apply Z.leb_gt in Hlt. rewrite Hlt, Hnext.
  now rewrite (add_seconds_Some _ _ _ Hnext).
Qed.

(** Whatever a failure settlement writes, it is one of the two. *)
Lemma failure_write_cases self job exit now_iso duration err now f :
  failure_write self job exit now_iso duration err now = Some f ->
  (max_retries job.2 <= attempts job.2 + 1
   /\ f = set_dead (attempts job.2 + 1) exit err now_iso duration)
  \/ (attempts job.2 + 1 < max_retries job.2
      /\ f = set_failed (attempts job.2 + 1) exit err
               (now + timedelta_seconds
                        (backoff_base self ^ (attempts job.2 + 1)))
               now_iso duration).
Proof.
  unfold failure_write. rewrite or_zero_id. cbv zeta.
  destruct (sqlite_integer _); [|done].
  destruct (Z.leb_spec (max_retries job.2) (attempts job.2 + 1)).
  - intros [= <-]. now left.
  - destruct (Datetime.add_seconds _ _) as [next|] eqn:Hn; [|done].
    intros [= <-]. right. split; [done|].
    now rewrite (add_seconds_Some _ _ _ Hn).
Qed.

(** The table after [_handle_failure] and after [_process_job]: at most
    one row is rewritten, by the SET clause of the branch taken. *)
Lemma handle_failure_lookup self job exit now_iso duration err w k :
  jobs (_handle_failure self job exit now_iso duration err w).2 !! k
  = if decide (k = job.1) then
      default id (failure_write self job exit now_iso duration err
                    (clock w (tick w)))
      <$> (jobs w !! k)
    else jobs w !! k.
Proof.
  destruct (handle_failure_run self job exit now_iso duration err w)
    as (_ & -> & _).
  destruct (decide (k = job.1)) as [->|Hne];
    [now rewrite lookup_alter_eq | now rewrite lookup_alter_ne].
Qed.

Lemma process_job_lookup self job c w k :
  jobs (_process_job self job c w).2 !! k
  = if decide (k = job.1) then
      default id (attempt_write self job c w) <$> (jobs w !! k)
    else jobs w !! k.
Proof.
  destruct (process_job_run self job c w) as (_ & -> & _).
  destruct (decide (k = job.1)) as [->|Hne];
    [now rewrite lookup_alter_eq | now rewrite lookup_alter_ne].
Qed.

(** The SET clause of an attempt, by what the child did. *)
Lemma attempt_write_success job c self w :
  succeeds job c = true ->
  attempt_write self job c w
  = Some (set_completed 0 (stdout c ++ stderr c) (clock w (S (tick w)))
            (clock w (S (S (tick w))) - clock w (tick w))).
Proof.
  intros Hok. apply succeeds_spec in Hok.
  unfold attempt_write. now rewrite Hok.
Qed.

Lemma attempt_write_failure job c self w :
  succeeds job c = false ->
  exists exit err,
    attempt_write self job c w
    = failure_write self job exit (clock w (S (tick w)))
        (clock w (S (S (tick w))) - clock w (tick w)) err
        (clock w (S (S (S (tick w))))).
Proof.
  unfold succeeds, attempt_write. cbv zeta.
  destruct (subprocess_run _ _) as [rc out err|]; [intros ->|]; eauto.
Qed.

Lemma attempt_write_timeout job c self w t :
  timeout_seconds job.2 = Some t -> 0 < t ->
  timedelta_seconds t < run_time c ->
  attempt_write self job c w
  = failure_write self job (-1) (clock w (S (tick w)))
      (clock w (S (S (tick w))) - clock w (tick w)) (Some "timeout"%string)
      (clock w (S (S (S (tick w))))).
Proof.
  intros Ht Hpos Hlate. unfold attempt_write.
  assert (Hrun : subprocess_run c (truthy (timeout_seconds job.2))
                 = TimeoutExpired).
  { rewrite Ht. destruct t as [|p|p]; try lia.
    unfold subprocess_run, truthy. cbv beta iota.
    apply Z.ltb_lt in Hlate. now rewrite Hlate. }
  now rewrite Hrun.
Qed.

(** C2, as the code has it, for a settlement that gets to write (the new
    count fits an INTEGER and, for a retry, the retry time is a
    [datetime]).  A failure settlement writes [attempts' = attempts + 1],
    the exit code, the error and a null lease, and stamps [updated_at]
    with the [now] it was given.  With [attempts' >= max_retries] the row
    is dead and [finished_at] is that [now].  Otherwise the row is failed,
    [finished_at] is not written, and [next_run_at] is
    [backoff_base ^ attempts'] seconds after a clock reading the handler
    takes itself. *)
Theorem failure_settlement self job exit now_iso duration err w r :
  jobs w !! job.1 = Some r -> 0 <= attempts job.2 ->
  count_fits job ->
  (attempts job.2 + 1 < max_retries job.2 ->
   retry_time_exists self job (clock w (tick w))) ->
  (_handle_failure self job exit now_iso duration err w).1 = Returned tt
  /\ exists r',
       jobs (_handle_failure self job exit now_iso duration err w).2 !! job.1
       = Some r'
       /\ attempts r' = attempts job.2 + 1
       /\ exit_code r' = Some exit /\ error r' = err
       /\ lease_until r' = None /\ updated_at r' = now_iso
       /\ (max_retries job.2 <= attempts job.2 + 1 ->
           state r' = dead /\ finished_at r' = Some now_iso
           /\ next_run_at r' = next_run_at r)
       /\ (attempts job.2 + 1 < max_retries job.2 ->
           state r' = failed /\ finished_at r' = finished_at r
           /\ next_run_at r'
              = Some (clock w (tick w)
                      + timedelta_seconds
                          (backoff_base self ^ (attempts job.2 + 1)))).
Proof.
  intros Hk _ Hfit Hrange.
  destruct (handle_failure_run self job exit now_iso duration err w)
    as (Hout & _).
  rewrite Hout, handle_failure_lookup, decide_True, Hk by done.
  destruct (Z.le_gt_cases (max_retries job.2) (attempts job.2 + 1))
    as [Hle|Hlt].
  - rewrite (failure_write_dead _ _ _ _ _ _ _ Hfit Hle).
    split; [reflexivity|]. eexists. split; [reflexivity|].
    simpl. repeat split; try done; lia.
  - rewrite (failure_write_failed _ _ _ _ _ _ _ Hfit Hlt (Hrange Hlt)).
    split; [reflexivity|]. eexists. split; [reflexivity|].
    simpl. repeat split; try done; lia.
Qed.

(** C3. When the child exits with code 0, the settlement sets the row to
    completed with that exit code, a null error, the concatenated stdout
    and stderr as output, a null lease, [finished_at] and [updated_at]
    equal to the same [now], and the measured duration; [attempts] keeps
    the value the row had. *)
Theorem success_settlement self job c w r :
  jobs w !! job.1 = Some r -> succeeds job c = true ->
  exists r',
    jobs (_process_job self job c w).2 !! job.1 = Some r'
    /\ state r' = completed
    /\ exit_code r' = Some 0 /\ returncode c = 0
    /\ error r' = None
    /\ output r' = Some (stdout c ++ stderr c)%string
    /\ lease_until r' = None
    /\ finished_at r' = Some (clock w (S (tick w)))
    /\ updated_at r' = clock w (S (tick w))
    /\ duration_seconds r'
       = Some (clock w (S (S (tick w))) - clock w (tick w))
    /\ attempts r' = attempts r.
Proof.
  intros Hk Hok.
  assert (Hrc : returncode c = 0).
  { unfold succeeds, subprocess_run in Hok.
    destruct (truthy _) as [t|]; [destruct (_ <? _)|];
      try done; now apply Z.eqb_eq. }
  rewrite process_job_lookup, decide_True, Hk by done.
  rewrite (attempt_write_success _ _ _ _ Hok). simpl.
  eexists. split; [reflexivity|]. now repeat split.
Qed.

(** When the job has a positive [timeout_seconds] and the child is still
    running once that time is over, the attempt is handed to
    [_handle_failure] with exit code -1 and the error "timeout"; when that
    settlement gets to write, the row ends failed or dead with these two
    values, one more attempt, and the output it had. *)
Lemma timeout_settlement self job c w r t :
  jobs w !! job.1 = Some r ->
  timeout_seconds job.2 = Some t -> 0 < t ->
  timedelta_seconds t < run_time c ->
  0 <= attempts job.2 -> count_fits job ->
  (attempts job.2 + 1 < max_retries job.2 ->
   retry_time_exists self job (clock w (S (S (S (tick w)))))) ->
  _process_job self job c w
  = _handle_failure self job (-1) (clock w (S (tick w)))
      (clock w (S (S (tick w))) - clock w (tick w)) (Some "timeout"%string)
      (ticked 3 (jobs w) w)
  /\ (_process_job self job c w).1 = Returned tt
  /\ exists r',
       jobs (_process_job self job c w).2 !! job.1 = Some r'
       /\ exit_code r' = Some (-1)
       /\ error r' = Some "timeout"%string
       /\ (state r' = failed \/ state r' = dead)
       /\ attempts r' = attempts job.2 + 1
       /\ output r' = output r.
Proof.
  intros Hk Ht Hpos Hlate _ Hfit Hrange.
  split.
  { assert (Hrun : subprocess_run c (truthy (timeout_seconds job.2))
                   = TimeoutExpired).
    { rewrite Ht. destruct t as [|p|p]; try lia.
      unfold subprocess_run, truthy. cbv beta iota.
      apply Z.ltb_lt in Hlate. now rewrite Hlate. }
    unfold _process_job. rewrite bind_run, Hrun.
    now rewrite !bind_run. }
  destruct (process_job_run self job c w) as (Hout & _).
  rewrite Hout, process_job_lookup, decide_True, Hk by done.
  rewrite (attempt_write_timeout _ _ _ _ _ Ht Hpos Hlate).
  destruct (Z.le_gt_cases (max_retries job.2) (attempts job.2 + 1))
    as [Hle|Hlt].
  - rewrite (failure_write_dead _ _ _ _ _ _ _ Hfit Hle).
    split; [reflexivity|]. eexists. split; [reflexivity|].
    simpl. repeat split; auto.
  - rewrite (failure_write_failed _ _ _ _ _ _ _ Hfit Hlt (Hrange Hlt)).
    split; [reflexivity|]. eexists. split; [reflexivity|].
    simpl. repeat split; auto.
Qed.

(** Only the completed path writes the [output] column. *)
Lemma failure_write_keeps_output self job exit now_iso duration err now r :
  output (default id (failure_write self job exit now_iso duration err now) r)
  = output r
  /\ max_retries
       (default id (failure_write self job exit now_iso duration err now) r)
     = max_retries r.
Proof.
  destruct (failure_write _ _ _ _ _ _ _) as [f|] eqn:Hw; [|done].
  apply failure_write_cases in Hw as [[_ ->]|[_ ->]]; done.
Qed.

Lemma handle_failure_keeps_output self job exit now_iso duration err w k r :
  jobs w !! k = Some r ->
  exists r',
    jobs (_handle_failure self job exit now_iso duration err w).2 !! k
    = Some r'
    /\ output r' = output r /\ max_retries r' = max_retries r.
Proof.
  intros Hk. rewrite handle_failure_lookup, Hk.
  destruct (decide (k = job.1)); simpl; [|eauto].
  eexists. split; [reflexivity|]. apply failure_write_keeps_output.
Qed.

Lemma unsuccessful_attempt_keeps_output self job c w k r :
  succeeds job c = false -> jobs w !! k = Some r ->
  exists r',
    jobs (_process_job self job c w).2 !! k = Some r'
    /\ output r' = output r.
Proof.
  intros Hfail Hk. rewrite process_job_lookup, Hk.
  destruct (decide (k = job.1)); simpl; [|eauto].
  destruct (attempt_write_failure _ _ self w Hfail) as (exit & err & ->).
  eexists. split; [reflexivity|]. apply failure_write_keeps_output.
Qed.

Lemma failure_settlement_witness :
  let w := Examples.claimed_b in
  let job := Examples.job_b in
  (jobs w !! job.1 = Some job.2 /\ 0 <= attempts job.2 /\ count_fits job
   /\ retry_time_exists Examples.w1 job (clock w (tick w)))
  /\ (_handle_failure Examples.w1 job 1 7 5 (Some "boom"%string) w).1
     = Returned tt
  /\ exists r',
       jobs (_handle_failure Examples.w1 job 1 7 5 (Some "boom"%string) w).2
         !! job.1 = Some r'
       /\ attempts r' = 1 /\ state r' = failed /\ updated_at r' = 7
       /\ next_run_at r' = Some (0 + timedelta_seconds (2 ^ 1)).
Proof.
  assert (H1 : jobs Examples.claimed_b !! Examples.job_b.1
               = Some Examples.job_b.2) by (vm_compute; reflexivity).
  assert (H2 : 0 <= attempts Examples.job_b.2) by (vm_compute; discriminate).
  assert (H3 : count_fits Examples.job_b) by (vm_compute; reflexivity).
  assert (H4 : retry_time_exists Examples.w1 Examples.job_b
                 (clock Examples.claimed_b (tick Examples.claimed_b)))
    by (eexists; vm_compute; reflexivity).
  split; [exact (conj H1 (conj H2 (conj H3 H4)))|].
  destruct (failure_settlement Examples.w1 Examples.job_b 1 7 5
              (Some "boom"%string) Examples.claimed_b _ H1 H2 H3
              (fun _ => H4))
    as (Hret & r' & Hr' & Ha & _ & _ & _ & Hu & _ & Hf).
  split; [exact Hret|].
  exists r'. split; [exact Hr'|]. split; [exact Ha|].
  destruct Hf as (Hs & _ & Hn); [vm_compute; reflexivity|].
  split; [exact Hs|]. split; [exact Hu | exact Hn].
Defined.

(** The claim as written fails on a run of [_process_job]: with a clock
    that moves by a microsecond per reading, the failed row is stamped
    [updated_at = 1] while its [next_run_at] is two seconds after the
    reading 3 the handler took. *)
Lemma backoff_is_not_counted_from_settle_now :
  let w := Examples.claimed_b in
  let w' := (_process_job Examples.w1 Examples.job_b Examples.exits_1 w).2 in
  (exists r', jobs w' !! "b"%string = Some r'
     /\ state r' = failed /\ attempts r' = 1 /\ updated_at r' = 1
     /\ next_run_at r' = Some (3 + timedelta_seconds (2 ^ 1)))
  /\ ~ backoff_from_settle_now Examples.w1 Examples.job_b Examples.exits_1 w.
Proof.
  split.
  - eexists. split; [vm_compute; reflexivity|]. now repeat split.
  - intros H. unfold backoff_from_settle_now in H.
    eassert (Hl : jobs (_process_job Examples.w1 Examples.job_b
                          Examples.exits_1 Examples.claimed_b).2
                    !! Examples.job_b.1 = Some _)
      by (vm_compute; reflexivity).
    specialize (H _ Hl eq_refl). vm_compute in H. discriminate H.
Qed.

Lemma success_settlement_witness :
  let w := Examples.claimed_b in
  let job := Examples.job_b in
  (jobs w !! job.1 = Some job.2 /\ succeeds job Examples.exits_0 = true)
  /\ exists r',
       jobs (_process_job Examples.w1 job Examples.exits_0 w).2 !! job.1
       = Some r'
       /\ state r' = completed /\ output r' = Some "outerr"%string
       /\ attempts r' = 0.
Proof.
  assert (H1 : jobs Examples.claimed_b !! Examples.job_b.1
               = Some Examples.job_b.2) by (vm_compute; reflexivity).
  assert (H2 : succeeds Examples.job_b Examples.exits_0 = true)
    by (vm_compute; reflexivity).
  split; [split; [exact H1 | exact H2]|].
  destruct (success_settlement Examples.w1 Examples.job_b Examples.exits_0
              Examples.claimed_b _ H1 H2)
    as (r' & Hr' & Hs & _ & _ & _ & Ho & _ & _ & _ & _ & Ha).
  exists r'. split; [exact Hr'|]. split; [exact Hs|].
  split; [exact Ho | exact Ha].
Defined.

(** C6 fails on the code.  Job "d2" has a timeout of one second and three
    attempts allowed; its child sleeps ten seconds; the worker's backoff
    base is 10^12.  The attempt times out and [_handle_failure] is
    entered, but the retry time is no [datetime]: the call raises
    [OverflowError] before its UPDATE, and the row stays in state
    processing, under its lease, with neither the exit code -1 nor the
    error "timeout". *)
Theorem timed_out_attempt_is_left_unsettled :
  let w := Examples.claimed_d2 in
  let job := Examples.job_d2 in
  let c := Examples.sleeps_10 in
  (jobs w !! job.1 = Some job.2
   /\ timeout_seconds job.2 = Some 1
   /\ timedelta_seconds 1 < run_time c
   /\ subprocess_run c (truthy (timeout_seconds job.2)) = TimeoutExpired)
  /\ (_process_job Examples.w_huge job c w).1 = Raised OverflowError
  /\ jobs (_process_job Examples.w_huge job c w).2 = jobs w
  /\ (exists r', jobs (_process_job Examples.w_huge job c w).2 !! job.1
                 = Some r'
        /\ state r' = processing /\ exit_code r' = None /\ error r' = None
        /\ attempts r' = 0 /\ lease_until r' = Some 31000000)
  /\ ~ timeout_is_settled Examples.w_huge job c w.
Proof.
  split; [repeat split; vm_compute; reflexivity|].
  split; [vm_compute; reflexivity|].
  split; [vm_compute; reflexivity|].
  split.
  - eexists. split; [vm_compute; reflexivity|]. now repeat split.
  - intros (r' & Hr' & He & _). vm_compute in Hr'.
    injection Hr' as <-. discriminate He.
Qed.

Lemma timeout_settlement_witness :
  let w := Examples.claimed_d2 in
  let job := Examples.job_d2 in
  (jobs w !! job.1 = Some job.2 /\ timeout_seconds job.2 = Some 1
   /\ 0 < 1 /\ timedelta_seconds 1 < run_time Examples.sleeps_10
   /\ 0 <= attempts job.2 /\ count_fits job
   /\ retry_time_exists Examples.w1 job (clock w (S (S (S (tick w))))))
  /\ (_process_job Examples.w1 job Examples.sleeps_10 w).1 = Returned tt
  /\ exists r',
       jobs (_process_job Examples.w1 job Examples.sleeps_10 w).2 !! job.1
       = Some r'
       /\ exit_code r' = Some (-1) /\ error r' = Some "timeout"%string
       /\ state r' = failed /\ attempts r' = 1.
Proof.
  assert (H1 : jobs Examples.claimed_d2 !! Examples.job_d2.1
               = Some Examples.job_d2.2) by (vm_compute; reflexivity).
  assert (H2 : timeout_seconds Examples.job_d2.2 = Some 1) by reflexivity.
  assert (H3 : 0 < 1) by lia.
  assert (H4 : timedelta_seconds 1 < run_time Examples.sleeps_10)
    by (vm_compute; reflexivity).
  assert (H5 : 0 <= attempts Examples.job_d2.2) by (vm_compute; discriminate).
  assert (H6 : count_fits Examples.job_d2) by (vm_compute; reflexivity).
  assert (H7 : retry_time_exists Examples.w1 Examples.job_d2
                 (clock Examples.claimed_d2
                    (S (S (S (tick Examples.claimed_d2))))))
    by (eexists; vm_compute; reflexivity).
  split; [exact (conj H1 (conj H2 (conj H3 (conj H4 (conj H5 (conj H6 H7))))))|].
  destruct (timeout_settlement Examples.w1 Examples.job_d2 Examples.sleeps_10
              Examples.claimed_d2 _ 1 H1 H2 H3 H4 H5 H6 (fun _ => H7))
    as (_ & Hret & r' & Hr' & He & Herr & _ & Ha & _).
  split; [exact Hret|].
  exists r'. split; [exact Hr'|]. split; [exact He|]. split; [exact Herr|].
  split; [|exact Ha].
  eassert (Hrow : jobs (_process_job Examples.w1 Examples.job_d2
                          Examples.sleeps_10 Examples.claimed_d2).2
                    !! Examples.job_d2.1 = Some _)
    by (vm_compute; reflexivity).
  rewrite Hrow in Hr'. injection Hr' as <-. reflexivity.
Defined.

End Settler.
(** ** Runs of the system *)

Section Runs.

Implicit Types (s : Sys) (l : Label) (w : World) (r : Job) (k : string)
  (job : Row).

Lemma process_job_rows self job c w k :
  jobs (_process_job self job c w).2 !! k = jobs w !! k
  \/ exists r r',
       jobs w !! k = Some r
       /\ jobs (_process_job self job c w).2 !! k = Some r'
       /\ row_change (LProcess self job c) k r r'.
Proof.
  rewrite process_job_lookup.
  destruct (decide (k = job.1)) as [->|Hne]; [|now left].
  destruct (jobs w !! job.1) as [r|] eqn:Hk; [|now left].
  destruct (attempt_write self job c w) as [f|] eqn:Hw; [|now left].
  right. exists r, (f r). split; [done|]. split; [done|].
  destruct (succeeds job c) eqn:Hok.
  - assert (Hrc : returncode c = 0).
    { unfold succeeds, subprocess_run in Hok.
      destruct (truthy _) as [t|]; [destruct (_ <? _)|];
        try done; now apply Z.eqb_eq. }
    rewrite (attempt_write_success _ _ self w Hok) in Hw.
    injection Hw as <-. rewrite <- Hrc. now eapply change_completed.
  - destruct (attempt_write_failure _ _ self w Hok) as (exit & err & Hf).
    rewrite Hf in Hw.
    apply failure_write_cases in Hw as [[Hle ->]|[Hlt ->]];
      [eapply change_dead | eapply change_failed]; eauto.
Qed.

(** Every step either leaves a row alone, rewrites it by one of the
    transitions, or (for [enqueue]) inserts it fresh. *)
Lemma step_rows s l s' k :
  step s l s' ->
  jobs (world s') !! k = jobs (world s) !! k
  \/ (exists r r',
        jobs (world s) !! k = Some r
        /\ jobs (world s') !! k = Some r'
        /\ row_change l k r r')
  \/ (jobs (world s) !! k = None
      /\ exists cmd retries timeout prio scheduled now,
           jobs (world s') !! k
           = Some (new_job cmd retries timeout prio scheduled now)).
Proof.
  intros Hstep. destruct Hstep as
    [s id cmd retries timeout prio ra | s self | s self job c h1 h2 Hin
    | s job h1 h2 Hin | s older | s ids h1 h2 Hin | s job_id]; cbn [world].
  - destruct (enqueue_jobs id cmd retries timeout prio ra (world s))
      as [->|(sch & now & Hfresh & ->)]; [now left|].
    destruct (decide (k = id)) as [->|Hne].
    + right. right. rewrite lookup_insert_eq. split; [done|]. eauto 10.
    + left. now rewrite lookup_insert_ne.
  - destruct (_claim_one_ready_job self (world s)).1 as [[[id j]|]|e] eqn:Hc.
    + destruct (claim_some _ _ _ _ Hc) as (r & Hid & Hr & -> & -> & _).
      destruct (decide (k = id)) as [->|Hne].
      * right. left. exists r. eexists.
        rewrite lookup_insert_eq. split; [done|]. split; [reflexivity|].
        eapply change_claimed; [reflexivity|].
        apply ready_spec in Hr as ([Hp|[Hf _]] & _); auto.
      * left. now rewrite lookup_insert_ne.
    + apply claim_none in Hc as [-> _]. now left.
    + apply (proj2 (claim_raised self (world s))) in Hc. rewrite Hc.
      now left.
  - destruct (process_job_rows self job c (world s) k) as [Heq|Hch];
      [now left | right; now left].
  - now left.
  - rewrite rescue_select_run. now left.
  - rewrite rescue_update_run. cbn [snd jobs ticked]. rewrite update_lookup.
    destruct (jobs (world s) !! k) as [r|] eqn:Hk; simpl; [|now left].
    destruct (decide (k ∈ ids)) as [Hk_in|Hk_out].
    + rewrite bool_decide_eq_true_2 by done.
      right. left. exists r. eexists. split; [done|]. split; [reflexivity|].
      now eapply change_rescued.
    + rewrite bool_decide_eq_false_2 by done. now left.
  - rewrite dlq_retry_run. cbn [snd jobs ticked]. rewrite update_lookup.
    destruct (jobs (world s) !! k) as [r|] eqn:Hk; simpl; [|now left].
    destruct (decide (k = job_id)) as [->|Hne];
      [destruct (decide (state r = dead)) as [Hd|Hnd]|].
    + rewrite !bool_decide_eq_true_2 by done. simpl.
      right. left. exists r. eexists. split; [done|]. split; [reflexivity|].
      now eapply change_retried.
    + rewrite (bool_decide_eq_false_2 (state r = dead)) by done.
      rewrite andb_false_r. now left.
    + rewrite (bool_decide_eq_false_2 (k = job_id)) by done. now left.
Qed.







(** C10. No failure settlement writes [output]: [_handle_failure] leaves
    the column of every row as it was, so does a whole attempt that does
    not take the completed path, and in every state reached from the empty
    store a row on which no success settlement was ever written has a null
    output. *)
Theorem failure_never_writes_output s0 ls s k r :
  initial s0 -> reach any_step s0 ls s ->
  jobs (world s) !! k = Some r ->
  (forall self job exit now_iso duration err,
     exists r',
       jobs (_handle_failure self job exit now_iso duration err (world s)).2
         !! k = Some r'
       /\ output r' = output r)
  /\ (forall self job c, succeeds job c = false ->
       exists r',
         jobs (_process_job self job c (world s)).2 !! k = Some r'
         /\ output r' = output r)
  /\ ((forall l, l ∈ ls -> ~ completes k l) -> output r = None).
Proof.
  intros Hinit Hreach Hk. split; [|split].
  - intros self job exit now_iso duration err.
    destruct (handle_failure_keeps_output self job exit now_iso duration err
                _ _ _ Hk) as (r' & Hr' & Ho & _). eauto.
  - intros self job c Hfail.
    exact (unsuccessful_attempt_keeps_output self job c _ _ _ Hfail Hk).
  - clear -Hinit Hreach Hk. revert k r Hk.
    induction Hreach as [|ls s1 l s2 Hreach IH _ Hstep]; intros k r' Hk' Hno.
    + destruct Hinit as [Hempty _]. rewrite Hempty, lookup_empty in Hk'.
      discriminate.
    + assert (Hno' : forall l0, l0 ∈ ls -> ~ completes k l0).
      { intros l0 Hl0. apply Hno. now right. }
      destruct (step_rows s1 l s2 k Hstep)
        as [Heq|[(r & r0 & Hk & Hk0 & Hch)|(_ & cmd & m & t & p & sch & now & Hnew)]].
      * rewrite Heq in Hk'. now apply (IH _ _ Hk').
      * rewrite Hk' in Hk0. injection Hk0 as <-.
        specialize (IH _ _ Hk Hno').
        destruct Hch as
          [self lease now _ Hst | self job c now d Hl Hj Hok
          | self job c exit err now d Hl Hj Hok Hge
          | self job c exit err next now d Hl Hj Hok Hlt
          | ids now Hl Hin | now _ Hst]; simpl; try exact IH.
        exfalso. apply (Hno l); [left|]. subst l. simpl. auto.
      * rewrite Hk' in Hnew. now injection Hnew as ->.
Qed.

Lemma late_run_initial : initial LateRun.s0.
Proof. repeat split. Qed.

(** The first run, up to the rescue's SELECT: the part all runs of job
    "e" share. *)
Lemma late_run_until_select :
  reach any_step LateRun.s0
    [ LRescueSelect 60; LClaim Examples.w1;
      LEnqueue "e" "flaky" 1 None 0 None ]
    LateRun.s3.
Proof.
  apply reach_more with LateRun.s2; [|exact I|].
  apply reach_more with LateRun.s1; [|exact I|].
  apply reach_more with LateRun.s0; [|exact I|].
  - apply reach_here.
  - apply step_enqueue.
  - apply (step_claim LateRun.s1).
  - apply (step_rescue_select LateRun.s2).
Qed.

Lemma late_run_until_dead :
  reach any_step LateRun.s0 LateRun.until_dead LateRun.s5.
Proof.
  apply reach_more with LateRun.s4; [|exact I|].
  apply reach_more with LateRun.s3u; [|exact I|].
  apply reach_more with LateRun.s3; [exact late_run_until_select|exact I|].
  - apply (step_rescue_update LateRun.s3 ["e"%string] [] []).
    vm_compute. reflexivity.
  - apply (step_claim LateRun.s3u).
  - apply (step_process LateRun.s4 Examples.w1 LateRun.snap1 Examples.exits_1
             [LateRun.snap2] []).
    vm_compute. reflexivity.
Qed.







Lemma failure_never_writes_output_witness :
  let r := set_dead 1 1 (Some "boom"%string) (timedelta_seconds 480)
             (timedelta_seconds 120) LateRun.snap2.2 in
  (initial LateRun.s0
   /\ reach any_step LateRun.s0 LateRun.until_dead LateRun.s5
   /\ jobs (world LateRun.s5) !! "e"%string = Some r)
  /\ state r = dead /\ output r = None.
Proof.
  assert (Hk : jobs (world LateRun.s5) !! "e"%string
               = Some (set_dead 1 1 (Some "boom"%string)
                         (timedelta_seconds 480) (timedelta_seconds 120)
                         LateRun.snap2.2))
    by (vm_compute; reflexivity).
  split; [exact (conj late_run_initial (conj late_run_until_dead Hk))|].
  split; [reflexivity|].
  destruct (failure_never_writes_output LateRun.s0 LateRun.until_dead
              LateRun.s5 "e" _ late_run_initial late_run_until_dead Hk)
    as (_ & _ & Hnull).
  apply Hnull. intros l Hl.
  repeat (apply elem_of_cons in Hl as [->|Hl]); simpl; try tauto.
  - intros [_ Hok]. vm_compute in Hok. discriminate Hok.
  - now apply elem_of_nil in Hl.
Defined.

End Runs.

(** ** The worker loop inside the system, and the scenarios *)

Section Scenarios.

(** A turn of [run] is a claim step followed, on a hit, by the process
    step of the job just claimed. *)
Lemma run_turn_steps self c s :
  match (_claim_one_ready_job self (world s)).1 with
  | Returned (Some job) =>
      exists s1 s2,
        step s (LClaim self) s1
        /\ step s1 (LProcess self job c) s2
        /\ world s2 = (run_turn self c (world s)).2
        /\ inflight s2 = inflight s
  | _ =>
      exists s1, step s (LClaim self) s1
                 /\ world s1 = (run_turn self c (world s)).2
  end.
Proof.
  unfold run_turn. rewrite bind_run.
  pose proof (step_claim s self) as Hclaim.
  destruct (_claim_one_ready_job self (world s)).1 as [[job|]|e] eqn:Hc.
  - eexists. eexists. split; [exact Hclaim|]. split.
    + apply (step_process _ self job c [] (inflight s)). reflexivity.
    + split; reflexivity.
  - eexists. split; [exact Hclaim|]. reflexivity.
  - eexists. split; [exact Hclaim|]. reflexivity.
Qed.

(** A run of [rescue_leases] is the step of its SELECT followed, when ids
    were found, by the step of its UPDATE. *)
Lemma rescue_leases_steps older s :
  match (rescue_select older (world s)).1 with
  | [] =>
      exists s1, step s (LRescueSelect older) s1
                 /\ world s1 = (rescue_leases older (world s)).2
                 /\ rescuing s1 = rescuing s
  | id :: rest =>
      exists s1 s2,
        step s (LRescueSelect older) s1
        /\ step s1 (LRescueUpdate (id :: rest)) s2
        /\ world s2 = (rescue_leases older (world s)).2
        /\ rescuing s2 = rescuing s
  end.
Proof.
  rewrite rescue_leases_split.
  pose proof (step_rescue_select s older) as Hsel.
  destruct (rescue_select older (world s)).1 as [|id rest] eqn:Hids.
  - eexists. split; [exact Hsel|]. split; reflexivity.
  - eexists. eexists. split; [exact Hsel|]. split.
    + apply (step_rescue_update _ (id :: rest) [] (rescuing s)). reflexivity.
    + split; reflexivity.
Qed.

(** [isoformat] on some instants, as [datetime] prints them. *)
Example isoformat_epoch :
  Datetime.isoformat 0 = "1970-01-01T00:00:00"%string.
Proof. vm_compute. reflexivity. Qed.

Example isoformat_microseconds :
  Datetime.isoformat 1762168953000123 = "2025-11-03T11:22:33.000123"%string.
Proof. vm_compute. reflexivity. Qed.

Example isoformat_leap_day :
  Datetime.isoformat 951782400000000 = "2000-02-29T00:00:00"%string.
Proof. vm_compute. reflexivity. Qed.

Example isoformat_bounds :
  Datetime.isoformat Datetime.min = "0001-01-01T00:00:00"%string
  /\ Datetime.isoformat Datetime.max = "9999-12-31T23:59:59.999999"%string.
Proof. split; vm_compute; reflexivity. Qed.

(** S1: a job that succeeds at once ends completed with no attempt
    counted and an empty output. *)
Example happy_path_row :
  exists r, jobs Examples.happy_path !! "a"%string = Some r
    /\ state r = completed /\ exit_code r = Some 0 /\ attempts r = 0
    /\ output r = Some ""%string /\ lease_until r = None
    /\ finished_at r = Some (timedelta_seconds 4).
Proof. eexists. split; [vm_compute; reflexivity|]. now repeat split. Qed.

(** S3: with two attempts allowed and base 1 the job is failed after the
    first failure and dead after the second. *)
Example deterministic_dead :
  (exists r, jobs Examples.first_failure !! "c"%string = Some r
     /\ state r = failed /\ attempts r = 1 /\ exit_code r = Some 1
     /\ finished_at r = None
     /\ next_run_at r = Some (timedelta_seconds 6 + timedelta_seconds 1))
  /\ (exists r, jobs Examples.second_failure !! "c"%string = Some r
        /\ state r = dead /\ attempts r = 2 /\ exit_code r = Some 1
        /\ lease_until r = None /\ output r = None).
Proof.
  split; (eexists; split; [vm_compute; reflexivity|]); now repeat split.
Qed.

(** S4: a child that outlives its timeout of one second, on a job with a
    single attempt, leaves the row dead with the timeout markers. *)
Example timeout_scenario :
  exists r, jobs Examples.timed_out !! "d"%string = Some r
    /\ state r = dead /\ attempts r = 1 /\ exit_code r = Some (-1)
    /\ error r = Some "timeout"%string /\ output r = None.
Proof. eexists. split; [vm_compute; reflexivity|]. now repeat split. Qed.

(** S6 on a host in UTC: after the crash a rescue with no grace period
    returns the row to pending, and a fresh worker completes it without
    any attempt counted. *)
Example lease_recovery_scenario :
  (rescue_leases 0 Examples.crashed).1 = ["e"%string]
  /\ exists r, jobs Examples.rescued_then_completed !! "e"%string = Some r
       /\ state r = completed /\ attempts r = 0
       /\ worker_id r = Some "worker-2"%string
       /\ started_at r = Some (timedelta_seconds 1).
Proof.
  split; [vm_compute; reflexivity|].
  eexists. split; [vm_compute; reflexivity|]. now repeat split.
Qed.

End Scenarios.

(** ** More on the Claimer *)

Section ClaimerMore.

Implicit Types (w : World) (self : Worker) (r j : Job) (id k : string).

(** X1. A claim misses exactly when the end of its lease is a [datetime]
    (otherwise it raises before its SELECT) and no row is ready at its
    clock reading; a miss writes nothing. *)
Theorem claim_misses_iff_nothing_ready self w :
  ((_claim_one_ready_job self w).1 = Returned None <->
   is_Some (Datetime.add_seconds (clock w (tick w)) (lease_seconds self))
   /\ forall k r, jobs w !! k = Some r ->
                  ready (clock w (tick w)) r = false)
  /\ ((_claim_one_ready_job self w).1 = Returned None ->
      jobs (_claim_one_ready_job self w).2 = jobs w).
Proof.
  split; [split|].
  - intros Hc. split; [|now apply claim_none in Hc as [_ ?]].
    destruct (Datetime.add_seconds _ _) eqn:Hl; [done|].
    apply (proj1 (claim_raised self w)) in Hl as [e He]. congruence.
  - intros [Hlease Hnone].
    destruct (_claim_one_ready_job self w).1 as [[[id j]|]|e] eqn:Hc; [|done|].
    + destruct (claim_some _ _ _ _ Hc) as (r & Hid & Hr & _).
      rewrite (Hnone _ _ Hid) in Hr. discriminate.
    + destruct (claim_raised self w) as [[Hraise _] _].
      rewrite Hraise in Hlease; [|eauto]. now destruct Hlease.
  - intros Hc. now apply claim_none in Hc as [? _].
Qed.

(** X2. A hit returns the row as it is stored after the claim: in state
    processing, leased to the claiming worker until [now + lease_seconds],
    stamped [now], with [started_at] kept if the row had one and [now]
    otherwise; its other columns and every other row are as before. *)
Theorem claim_hit_writes_only_the_lease self w id j :
  (_claim_one_ready_job self w).1 = Returned (Some (id, j)) ->
  exists r,
    jobs w !! id = Some r
    /\ jobs (_claim_one_ready_job self w).2 !! id = Some j
    /\ (forall k, k <> id ->
          jobs (_claim_one_ready_job self w).2 !! k = jobs w !! k)
    /\ state j = processing
    /\ worker_id j = Some (self_worker_id self)
    /\ lease_until j
       = Some (clock w (tick w) + timedelta_seconds (lease_seconds self))
    /\ updated_at j = clock w (tick w)
    /\ started_at j = Some (default (clock w (tick w)) (started_at r))
    /\ (command j, attempts j, max_retries j, exit_code j, error j)
       = (command r, attempts r, max_retries r, exit_code r, error r)
    /\ (next_run_at j, timeout_seconds j, priority j, run_at j)
       = (next_run_at r, timeout_seconds r, priority r, run_at r)
    /\ (finished_at j, output j, duration_seconds j, created_at j)
       = (finished_at r, output r, duration_seconds r, created_at r).
Proof.
  intros Hc.
  destruct (claim_some _ _ _ _ Hc) as (r & Hid & _ & -> & -> & _).
  exists r. split; [done|]. split; [apply lookup_insert_eq|].
  split; [intros k Hne; now apply lookup_insert_ne|].
  simpl. repeat split. now destruct (started_at r).
Qed.

(** X3. Two claims in a row, with nothing written in between, return
    different jobs, and the second job, if it was already ready at the first
    claim, does not sort before the first under priority DESC, created_at
    ASC. *)
Theorem successive_claims_follow_the_order self1 self2 w w1 id1 j1 id2 j2 :
  (_claim_one_ready_job self1 w).1 = Returned (Some (id1, j1)) ->
  same_store (_claim_one_ready_job self1 w).2 w1 ->
  (_claim_one_ready_job self2 w1).1 = Returned (Some (id2, j2)) ->
  id2 <> id1
  /\ exists r1 r2,
       jobs w !! id1 = Some r1 /\ jobs w !! id2 = Some r2
       /\ (ready (clock w (tick w)) r2 = true ->
           priority r2 <= priority r1
           /\ (priority r2 = priority r1 -> created_at r1 <= created_at r2)).
Proof.
  intros Hc1 Hsame Hc2.
  destruct (claim_some _ _ _ _ Hc1) as (r1 & Hid1 & _ & Hj1 & Htab & Hbest).
  destruct (claim_some _ _ _ _ Hc2) as (r2 & Hid2 & Hr2 & _).
  unfold same_store in Hsame. rewrite Hsame, Htab in Hid2.
  assert (Hne : id2 <> id1).
  { intros ->. rewrite lookup_insert_eq in Hid2. injection Hid2 as <-.
    apply ready_spec in Hr2 as ([Hp|[Hf _]] & _); rewrite Hj1 in *;
      discriminate. }
  split; [exact Hne|]. rewrite lookup_insert_ne in Hid2 by done.
  exists r1, r2. split; [done|]. split; [done|]. intros Hready.
  now apply (before_spec (id2, r2) (id1, r1)), Hbest.
Qed.

End ClaimerMore.

Section ClaimerMoreWitnesses.

Lemma claim_hit_writes_only_the_lease_witness :
  let w := Examples.two_jobs in
  let j := set_claimed "worker-1" 32000000 2000000
             (new_job "true" 3 None 10 None 1000000) in
  (_claim_one_ready_job Examples.w1 w).1
  = Returned (Some ("hi"%string, j))
  /\ exists r,
       jobs w !! "hi"%string = Some r
       /\ jobs (_claim_one_ready_job Examples.w1 w).2 !! "hi"%string = Some j
       /\ state j = processing
       /\ lease_until j = Some (timedelta_seconds 2 + timedelta_seconds 30).
Proof.
  assert (H : (_claim_one_ready_job Examples.w1 Examples.two_jobs).1
              = Returned
                  (Some ("hi"%string,
                         set_claimed "worker-1" 32000000 2000000
                           (new_job "true" 3 None 10 None 1000000))))
    by (vm_compute; reflexivity).
  split; [exact H|].
  destruct (claim_hit_writes_only_the_lease Examples.w1 Examples.two_jobs
              _ _ H) as (r & Hr & Hj & _ & Hs & _ & Hl & _).
  exists r. split; [exact Hr|]. split; [exact Hj|].
  split; [exact Hs | exact Hl].
Defined.

Lemma successive_claims_follow_the_order_witness :
  let w := Examples.two_jobs in
  let w1 := (_claim_one_ready_job Examples.w1 w).2 in
  let j1 := set_claimed "worker-1" 32000000 2000000
              (new_job "true" 3 None 10 None 1000000) in
  let j2 := set_claimed "worker-2" 34000000 4000000
              (new_job "true" 3 None 0 None 0) in
  ((_claim_one_ready_job Examples.w1 w).1
   = Returned (Some ("hi"%string, j1))
   /\ same_store w1 w1
   /\ (_claim_one_ready_job Examples.w2 w1).1
      = Returned (Some ("lo"%string, j2)))
  /\ "lo"%string <> "hi"%string.
Proof.
  assert (H1 : (_claim_one_ready_job Examples.w1 Examples.two_jobs).1
               = Returned
                   (Some ("hi"%string,
                          set_claimed "worker-1" 32000000 2000000
                            (new_job "true" 3 None 10 None 1000000))))
    by (vm_compute; reflexivity).
  assert (H2 : (_claim_one_ready_job Examples.w2
                  (_claim_one_ready_job Examples.w1 Examples.two_jobs).2).1
               = Returned
                   (Some ("lo"%string,
                          set_claimed "worker-2" 34000000 4000000
                            (new_job "true" 3 None 0 None 0))))
    by (vm_compute; reflexivity).
  split; [exact (conj H1 (conj eq_refl H2))|].
  exact (proj1 (successive_claims_follow_the_order Examples.w1 Examples.w2
                  Examples.two_jobs _ _ _ _ _ H1 eq_refl H2)).
Defined.

End ClaimerMoreWitnesses.
(** ** More on attempts and their settlement *)

Section SettlerMore.

Implicit Types (w : World) (self : Worker) (job : Row) (r : Job)
  (k : string) (c : Child).

(** Whatever an attempt writes, it is one of the three SET clauses. *)
Lemma attempt_write_cases self job c w f :
  attempt_write self job c w = Some f ->
  (exists rc out now d, f = set_completed rc out now d)
  \/ (exists a exit err now d, f = set_dead a exit err now d)
  \/ (exists a exit err next now d, f = set_failed a exit err next now d).
Proof.
  destruct (succeeds job c) eqn:Hok.
  - rewrite (attempt_write_success _ _ self w Hok).
    intros [= <-]. left. eauto.
  - destruct (attempt_write_failure _ _ self w Hok) as (exit & err & ->).
    intros Hw. right.
    apply failure_write_cases in Hw as [[_ ->]|[_ ->]]; [left|right]; eauto 8.
Qed.

(** X4. An attempt writes at most the row of its job: every other row is
    left as it was, and when the row is gone the table is unchanged. *)
Theorem attempt_touches_only_its_row self job c w :
  (forall k, k <> job.1 ->
     jobs (_process_job self job c w).2 !! k = jobs w !! k)
  /\ (jobs w !! job.1 = None -> jobs (_process_job self job c w).2 = jobs w).
Proof.
  split.
  - intros k Hne. now rewrite process_job_lookup, decide_False.
  - intros Hnone. apply map_eq. intros k. rewrite process_job_lookup.
    destruct (decide (k = job.1)) as [->|]; [|done]. now rewrite Hnone.
Qed.

(** X5. A child that is not timed out and exits with a non-zero code is
    settled as a failure with that exit code and its stderr as the error,
    when the settlement gets to write (the new count fits an INTEGER and,
    for a retry, the retry time is a [datetime]); the row ends failed or
    dead with one more attempt than the snapshot, and the captured stdout
    is stored nowhere: [output] stays as it was. *)
Theorem nonzero_exit_settlement self job c w r :
  jobs w !! job.1 = Some r ->
  subprocess_run c (truthy (timeout_seconds job.2))
  = CompletedProcess (returncode c) (stdout c) (stderr c) ->
  returncode c <> 0 ->
  0 <= attempts job.2 -> count_fits job ->
  (attempts job.2 + 1 < max_retries job.2 ->
   retry_time_exists self job (clock w (S (S (S (tick w)))))) ->
  (_process_job self job c w).1 = Returned tt
  /\ exists r',
       jobs (_process_job self job c w).2 !! job.1 = Some r'
       /\ exit_code r' = Some (returncode c)
       /\ error r' = Some (stderr c)
       /\ attempts r' = attempts job.2 + 1
       /\ (state r' = dead <-> max_retries job.2 <= attempts job.2 + 1)
       /\ (state r' = failed <-> attempts job.2 + 1 < max_retries job.2)
       /\ output r' = output r
       /\ lease_until r' = None.
Proof.
  intros Hk Hrun Hrc _ Hfit Hrange.
  destruct (process_job_run self job c w) as (Hout & _).
  rewrite Hout, process_job_lookup, decide_True, Hk by done.
  unfold attempt_write. rewrite Hrun. cbv zeta.
  apply Z.eqb_neq in Hrc. rewrite Hrc.
  destruct (Z.le_gt_cases (max_retries job.2) (attempts job.2 + 1))
    as [Hle|Hlt].
  - rewrite (failure_write_dead _ _ _ _ _ _ _ Hfit Hle).
    split; [reflexivity|]. eexists. split; [reflexivity|].
    simpl. repeat split; try done; try lia; intros; discriminate.
  - rewrite (failure_write_failed _ _ _ _ _ _ _ Hfit Hlt (Hrange Hlt)).
    split; [reflexivity|]. eexists. split; [reflexivity|].
    simpl. repeat split; try done; try lia; intros; discriminate.
Qed.

(** X6. A timeout of 0 seconds is no timeout: however long the child
    runs, [subprocess.run] returns its exit code.  With code 0 the row is
    completed; with another code the attempt is settled as a failure with
    that code and the child's stderr, when that settlement gets to
    write. *)
Theorem zero_timeout_never_expires self job c w r :
  jobs w !! job.1 = Some r ->
  timeout_seconds job.2 = Some 0 ->
  subprocess_run c (truthy (timeout_seconds job.2))
  = CompletedProcess (returncode c) (stdout c) (stderr c)
  /\ (returncode c = 0 ->
      (_process_job self job c w).1 = Returned tt
      /\ exists r',
           jobs (_process_job self job c w).2 !! job.1 = Some r'
           /\ state r' = completed /\ exit_code r' = Some 0)
  /\ (returncode c <> 0 ->
      0 <= attempts job.2 -> count_fits job ->
      (attempts job.2 + 1 < max_retries job.2 ->
       retry_time_exists self job (clock w (S (S (S (tick w)))))) ->
      exists r',
        jobs (_process_job self job c w).2 !! job.1 = Some r'
        /\ exit_code r' = Some (returncode c)
        /\ error r' = Some (stderr c)).
Proof.
  intros Hk Ht.
  assert (Hrun : subprocess_run c (truthy (timeout_seconds job.2))
                 = CompletedProcess (returncode c) (stdout c) (stderr c))
    by now rewrite Ht.
  split; [exact Hrun|].
  destruct (process_job_run self job c w) as (Hout & _).
  rewrite Hout, process_job_lookup, decide_True, Hk by done.
  unfold attempt_write. rewrite Hrun. cbv zeta. split.
  - intros ->. simpl. split; [reflexivity|].
    eexists. split; [reflexivity|]. now split.
  - intros Hrc _ Hfit Hrange. apply Z.eqb_neq in Hrc. rewrite Hrc.
    destruct (Z.le_gt_cases (max_retries job.2) (attempts job.2 + 1))
      as [Hle|Hlt].
    + rewrite (failure_write_dead _ _ _ _ _ _ _ Hfit Hle).
      eexists. split; [reflexivity|]. now split.
    + rewrite (failure_write_failed _ _ _ _ _ _ _ Hfit Hlt (Hrange Hlt)).
      eexists. split; [reflexivity|]. now split.
Qed.

(** X7. With [max_retries] at most 1 the first failed attempt is terminal:
    the row goes straight to dead with [attempts = 1] and no [next_run_at]
    is written; for [max_retries <= 0] the count then exceeds the cap. *)
Theorem low_cap_dies_on_first_failure self job c w r :
  jobs w !! job.1 = Some r ->
  succeeds job c = false ->
  attempts job.2 = 0 -> max_retries job.2 <= 1 ->
  exists r',
    jobs (_process_job self job c w).2 !! job.1 = Some r'
    /\ state r' = dead /\ attempts r' = 1
    /\ next_run_at r' = next_run_at r
    /\ finished_at r' = Some (clock w (S (tick w)))
    /\ (max_retries job.2 <= 0 -> max_retries job.2 < attempts r').
Proof.
  intros Hk Hfail Ha Hm.
  rewrite process_job_lookup, decide_True, Hk by done.
  destruct (attempt_write_failure _ _ self w Hfail) as (exit & err & ->).
  assert (Hfit : count_fits job) by (unfold count_fits; now rewrite Ha).
  rewrite failure_write_dead by (done || lia).
  rewrite Ha. simpl. eexists. split; [reflexivity|].
  repeat split; simpl; lia.
Qed.

(** X8. Under a clock that never goes back, a failed attempt that may be
    retried and whose retry time is a [datetime] has a non-negative
    duration, and its [next_run_at] lies at least
    [backoff_base ^ attempts'] seconds after its [updated_at]. *)
Theorem backoff_is_at_least_the_delay self job c w r :
  nondecreasing w ->
  jobs w !! job.1 = Some r ->
  succeeds job c = false ->
  0 <= attempts job.2 -> count_fits job ->
  attempts job.2 + 1 < max_retries job.2 ->
  retry_time_exists self job (clock w (S (S (S (tick w))))) ->
  exists r' next d,
    jobs (_process_job self job c w).2 !! job.1 = Some r'
    /\ state r' = failed
    /\ next_run_at r' = Some next
    /\ updated_at r'
       + timedelta_seconds (backoff_base self ^ (attempts job.2 + 1))
       <= next
    /\ duration_seconds r' = Some d /\ 0 <= d.
Proof.
  intros Hclock Hk Hfail _ Hfit Hlt Hrange.
  rewrite process_job_lookup, decide_True, Hk by done.
  destruct (attempt_write_failure _ _ self w Hfail) as (exit & err & ->).
  rewrite (failure_write_failed _ _ _ _ _ _ _ Hfit Hlt Hrange).
  pose proof (Hclock (tick w)) as H0.
  pose proof (Hclock (S (tick w))) as H1.
  pose proof (Hclock (S (S (tick w)))) as H2.
  simpl. eexists. eexists. eexists. split; [reflexivity|].
  simpl. repeat split; lia.
Qed.

(** X9. After a failure settlement that leaves the row failed, the job is
    not returned by any claim whose clock reading is before [next_run_at];
    from [next_run_at] on the row is ready as soon as its [run_at] test
    passes. *)
Theorem failed_job_waits_for_next_run_at
    self job exit now_iso duration err w r self' w' :
  jobs w !! job.1 = Some r ->
  0 <= attempts job.2 -> count_fits job ->
  attempts job.2 + 1 < max_retries job.2 ->
  retry_time_exists self job (clock w (tick w)) ->
  same_store (_handle_failure self job exit now_iso duration err w).2 w' ->
  let next := clock w (tick w)
              + timedelta_seconds (backoff_base self ^ (attempts job.2 + 1)) in
  (clock w' (tick w') < next ->
   forall j, (_claim_one_ready_job self' w').1 <> Returned (Some (job.1, j)))
  /\ (next <= clock w' (tick w') ->
      run_gate (clock w' (tick w')) r = true ->
      exists r', jobs w' !! job.1 = Some r'
                 /\ ready (clock w' (tick w')) r' = true).
Proof.
  intros Hk _ Hfit Hlt Hrange Hsame next.
  assert (Hrow : jobs w' !! job.1
                 = Some (set_failed (attempts job.2 + 1) exit err next
                           now_iso duration r)).
  { unfold same_store in Hsame.
    rewrite Hsame, handle_failure_lookup, decide_True, Hk by done.
    now rewrite (failure_write_failed _ _ _ _ _ _ _ Hfit Hlt Hrange). }
  split.
  - intros Hearly j Hc.
    destruct (claim_some _ _ _ _ Hc) as (r0 & Hid & Hr & _).
    rewrite Hrow in Hid. injection Hid as <-.
    apply ready_spec in Hr as ([Hp|(_ & t & Ht & Hle)] & _);
      simpl in *; [discriminate|]. injection Ht as <-. lia.
  - intros Hlate Hrun. eexists. split; [exact Hrow|].
    apply ready_spec. simpl. split; [right; eauto|]. split; [|now left].
    exact Hrun.
Qed.

(** X10. One turn of the worker loop.  On a miss, or when the claim
    raises, the table is unchanged.  On a hit no other row is touched;
    when the turn returns, the claimed row ends completed, failed or dead
    with a null lease, and when the settlement raises, the row is left as
    the claim wrote it: in state processing under its lease. *)
Theorem turn_settles_what_it_claims self c w :
  match (_claim_one_ready_job self w).1 with
  | Returned (Some job) =>
      (forall k, k <> job.1 ->
         jobs (run_turn self c w).2 !! k = jobs w !! k)
      /\ match (run_turn self c w).1 with
         | Returned _ =>
             exists r',
               jobs (run_turn self c w).2 !! job.1 = Some r'
               /\ (state r' = completed \/ state r' = failed
                   \/ state r' = dead)
               /\ lease_until r' = None
               /\ worker_id r' = Some (self_worker_id self)
         | Raised _ =>
             jobs (run_turn self c w).2 !! job.1 = Some job.2
             /\ state job.2 = processing
             /\ lease_until job.2
                = Some (clock w (tick w)
                        + timedelta_seconds (lease_seconds self))
         end
  | Returned None =>
      (run_turn self c w).1 = Returned tt
      /\ jobs (run_turn self c w).2 = jobs w
  | Raised e =>
      (run_turn self c w).1 = Raised e
      /\ jobs (run_turn self c w).2 = jobs w
  end.
Proof.
  unfold run_turn. rewrite bind_run.
  destruct (_claim_one_ready_job self w).1 as [[[id j]|]|e] eqn:Hc.
  - destruct (claim_some _ _ _ _ Hc) as (r & Hid & _ & Hj & Htab & _).
    split.
    + intros k Hne.
      rewrite process_job_lookup, decide_False, Htab by done.
      now apply lookup_insert_ne.
    + destruct (process_job_run self (id, j) c
                  (_claim_one_ready_job self w).2) as (Hout & _).
      rewrite Hout, process_job_lookup, decide_True, Htab, lookup_insert_eq
        by done.
      destruct (attempt_write _ _ _ _) as [f|] eqn:Hw; simpl.
      * eexists. split; [reflexivity|].
        apply attempt_write_cases in Hw
          as [(? & ? & ? & ? & ->)|[(? & ? & ? & ? & ? & ->)
             |(? & ? & ? & ? & ? & ? & ->)]];
          rewrite Hj; simpl; auto 10.
      * rewrite Hj. simpl. auto.
  - apply claim_none in Hc as [? _]. now split.
  - apply (proj2 (claim_raised self w)) in Hc. now split.
Qed.

End SettlerMore.

Section SettlerMoreWitnesses.

Lemma nonzero_exit_settlement_witness :
  let w := Examples.claimed_b in
  let job := Examples.job_b in
  let c := Examples.exits_1 in
  (jobs w !! job.1 = Some job.2
   /\ subprocess_run c (truthy (timeout_seconds job.2))
      = CompletedProcess (returncode c) (stdout c) (stderr c)
   /\ returncode c <> 0
   /\ 0 <= attempts job.2 /\ count_fits job
   /\ retry_time_exists Examples.w1 job (clock w (S (S (S (tick w))))))
  /\ (_process_job Examples.w1 job c w).1 = Returned tt
  /\ exists r',
       jobs (_process_job Examples.w1 job c w).2 !! job.1 = Some r'
       /\ exit_code r' = Some 1 /\ error r' = Some "boom"%string
       /\ output r' = None.
Proof.
  assert (H1 : jobs Examples.claimed_b !! Examples.job_b.1
               = Some Examples.job_b.2) by (vm_compute; reflexivity).
  assert (H2 : subprocess_run Examples.exits_1
                 (truthy (timeout_seconds Examples.job_b.2))
               = CompletedProcess (returncode Examples.exits_1)
                   (stdout Examples.exits_1) (stderr Examples.exits_1))
    by reflexivity.
  assert (H3 : returncode Examples.exits_1 <> 0) by (vm_compute; discriminate).
  assert (H4 : 0 <= attempts Examples.job_b.2) by (vm_compute; discriminate).
  assert (H5 : count_fits Examples.job_b) by (vm_compute; reflexivity).
  assert (H6 : retry_time_exists Examples.w1 Examples.job_b
                 (clock Examples.claimed_b
                    (S (S (S (tick Examples.claimed_b))))))
    by (eexists; vm_compute; reflexivity).
  split; [exact (conj H1 (conj H2 (conj H3 (conj H4 (conj H5 H6)))))|].
  destruct (nonzero_exit_settlement Examples.w1 Examples.job_b
              Examples.exits_1 Examples.claimed_b _ H1 H2 H3 H4 H5
              (fun _ => H6))
    as (Hret & r' & Hr' & He & Herr & _ & _ & _ & Ho & _).
  split; [exact Hret|].
  exists r'. split; [exact Hr'|]. split; [exact He|].
  split; [exact Herr | exact Ho].
Defined.

Lemma zero_timeout_never_expires_witness :
  let w := MoreExamples.claimed_z in
  let job := MoreExamples.job_z in
  (jobs w !! job.1 = Some job.2 /\ timeout_seconds job.2 = Some 0)
  /\ exists r',
       jobs (_process_job Examples.w1 job MoreExamples.sleeps_hour w).2
         !! job.1 = Some r'
       /\ state r' = completed /\ exit_code r' = Some 0.
Proof.
  assert (H1 : jobs MoreExamples.claimed_z !! MoreExamples.job_z.1
               = Some MoreExamples.job_z.2) by (vm_compute; reflexivity).
  assert (H2 : timeout_seconds MoreExamples.job_z.2 = Some 0)
    by reflexivity.
  split; [exact (conj H1 H2)|].
  destruct (zero_timeout_never_expires Examples.w1 MoreExamples.job_z
              MoreExamples.sleeps_hour MoreExamples.claimed_z _ H1 H2)
    as (_ & Hc & _).
  destruct (Hc eq_refl) as (_ & r' & Hr' & Hs & He).
  exists r'. split; [exact Hr'|]. split; [exact Hs | exact He].
Defined.

Lemma low_cap_dies_on_first_failure_witness :
  let w := Examples.claimed_d in
  let job := Examples.job_d in
  (jobs w !! job.1 = Some job.2
   /\ succeeds job Examples.exits_1 = false
   /\ attempts job.2 = 0 /\ max_retries job.2 <= 1)
  /\ exists r',
       jobs (_process_job Examples.w1 job Examples.exits_1 w).2 !! job.1
       = Some r'
       /\ state r' = dead /\ attempts r' = 1.
Proof.
  assert (H1 : jobs Examples.claimed_d !! Examples.job_d.1
               = Some Examples.job_d.2) by (vm_compute; reflexivity).
  assert (H2 : succeeds Examples.job_d Examples.exits_1 = false)
    by (vm_compute; reflexivity).
  assert (H3 : attempts Examples.job_d.2 = 0) by reflexivity.
  assert (H4 : max_retries Examples.job_d.2 <= 1) by (simpl; lia).
  split; [exact (conj H1 (conj H2 (conj H3 H4)))|].
  destruct (low_cap_dies_on_first_failure Examples.w1 Examples.job_d
              Examples.exits_1 Examples.claimed_d _ H1 H2 H3 H4)
    as (r' & Hr' & Hs & Ha & _).
  exists r'. split; [exact Hr'|]. split; [exact Hs | exact Ha].
Defined.

Lemma backoff_is_at_least_the_delay_witness :
  let w := Examples.claimed_b in
  let job := Examples.job_b in
  (nondecreasing w
   /\ jobs w !! job.1 = Some job.2
   /\ succeeds job Examples.exits_1 = false
   /\ 0 <= attempts job.2 /\ count_fits job
   /\ attempts job.2 + 1 < max_retries job.2
   /\ retry_time_exists Examples.w1 job (clock w (S (S (S (tick w))))))
  /\ exists r' next,
       jobs (_process_job Examples.w1 job Examples.exits_1 w).2 !! job.1
       = Some r'
       /\ next_run_at r' = Some next
       /\ updated_at r' + timedelta_seconds (2 ^ 1) <= next.
Proof.
  assert (H0 : nondecreasing Examples.claimed_b).
  { intros n. simpl. unfold Examples.micro_clock. lia. }
  assert (H1 : jobs Examples.claimed_b !! Examples.job_b.1
               = Some Examples.job_b.2) by (vm_compute; reflexivity).
  assert (H2 : succeeds Examples.job_b Examples.exits_1 = false)
    by (vm_compute; reflexivity).
  assert (H3 : attempts Examples.job_b.2 + 1 < max_retries Examples.job_b.2)
    by (simpl; lia).
  assert (H4 : 0 <= attempts Examples.job_b.2) by (vm_compute; discriminate).
  assert (H5 : count_fits Examples.job_b) by (vm_compute; reflexivity).
  assert (H6 : retry_time_exists Examples.w1 Examples.job_b
                 (clock Examples.claimed_b
                    (S (S (S (tick Examples.claimed_b))))))
    by (eexists; vm_compute; reflexivity).
  split; [exact (conj H0 (conj H1 (conj H2 (conj H4 (conj H5 (conj H3 H6))))))|].
  destruct (backoff_is_at_least_the_delay Examples.w1 Examples.job_b
              Examples.exits_1 Examples.claimed_b _ H0 H1 H2 H4 H5 H3 H6)
    as (r' & next & d & Hr' & _ & Hn & Hle & _).
  exists r', next. split; [exact Hr'|]. split; [exact Hn | exact Hle].
Defined.

Lemma failed_job_waits_for_next_run_at_witness :
  let w := Examples.claimed_b in
  let job := Examples.job_b in
  let w' := MoreExamples.failed_b in
  (jobs w !! job.1 = Some job.2
   /\ 0 <= attempts job.2 /\ count_fits job
   /\ attempts job.2 + 1 < max_retries job.2
   /\ retry_time_exists Examples.w1 job (clock w (tick w))
   /\ same_store
        (_handle_failure Examples.w1 job 1 7 5 (Some "boom"%string) w).2 w'
   /\ clock w' (tick w') < clock w (tick w) + timedelta_seconds (2 ^ 1))
  /\ forall j, (_claim_one_ready_job Examples.w2 w').1
               <> Returned (Some (job.1, j)).
Proof.
  assert (H1 : jobs Examples.claimed_b !! Examples.job_b.1
               = Some Examples.job_b.2) by (vm_compute; reflexivity).
  assert (H2 : attempts Examples.job_b.2 + 1 < max_retries Examples.job_b.2)
    by (simpl; lia).
  assert (H3 : same_store
                 (_handle_failure Examples.w1 Examples.job_b 1 7 5
                    (Some "boom"%string) Examples.claimed_b).2
                 MoreExamples.failed_b) by reflexivity.
  assert (H4 : clock MoreExamples.failed_b (tick MoreExamples.failed_b)
               < clock Examples.claimed_b (tick Examples.claimed_b)
                 + timedelta_seconds (2 ^ 1)) by (vm_compute; reflexivity).
  assert (H5 : 0 <= attempts Examples.job_b.2) by (vm_compute; discriminate).
  assert (H6 : count_fits Examples.job_b) by (vm_compute; reflexivity).
  assert (H7 : retry_time_exists Examples.w1 Examples.job_b
                 (clock Examples.claimed_b (tick Examples.claimed_b)))
    by (eexists; vm_compute; reflexivity).
  split; [exact (conj H1 (conj H5 (conj H6 (conj H2 (conj H7 (conj H3 H4))))))|].
  exact (proj1 (failed_job_waits_for_next_run_at Examples.w1 Examples.job_b
                  1 7 5 (Some "boom"%string) Examples.claimed_b _
                  Examples.w2 MoreExamples.failed_b H1 H5 H6 H2 H7 H3) H4).
Defined.

End SettlerMoreWitnesses.

(** ** More on the administrative commands *)

Section AdminMore.

Implicit Types (w : World) (r : Job) (k id : string).

Ltac run_cli :=
  repeat (rewrite ?bind_run, ?utcnow_run, ?ret_run;
          cbn [fst snd jobs clock tick utc_offset ticked Nat.add
               get_jobs put_jobs]).



(** X12. Rescue only ever touches leased rows in state processing: a row in
    any other state, or without a lease, is neither reported nor changed. *)
Theorem rescue_touches_only_leased_processing older w k r :
  jobs w !! k = Some r ->
  state r <> processing \/ lease_until r = None ->
  jobs (rescue_leases older w).2 !! k = Some r
  /\ k ∉ (rescue_leases older w).1.
Proof.
  intros Hk Hnot.
  destruct (rescue_leases_spec older w) as [Hids Htab].
  assert (He : expired_lease (rescue_cutoff older w) r = false).
  { destruct (expired_lease _ r) eqn:He; [|done].
    apply expired_spec in He as (Hs & l & Hl & _).
    destruct Hnot; congruence. }
  split.
  - rewrite Htab, Hk. simpl. now rewrite He.
  - intros Hin. apply Hids in Hin as (r' & Hk' & He'). congruence.
Qed.

Lemma dlq_retry_lookup job_id w k :
  jobs (dlq_retry job_id w).2 !! k
  = (fun r => if bool_decide (k = job_id) && bool_decide (state r = dead)
              then set_retried (clock w (tick w)) r else r)
    <$> (jobs w !! k).
Proof.
  rewrite dlq_retry_run. cbn [snd jobs ticked]. apply update_lookup.
Qed.

Lemma dlq_retry_noop job_id w :
  (forall r, jobs w !! job_id = Some r -> state r <> dead) ->
  jobs (dlq_retry job_id w).2 = jobs w.
Proof.
  intros H0. apply map_eq. intros k. rewrite dlq_retry_lookup.
  destruct (jobs w !! k) as [r|] eqn:Hk; simpl; [|done].
  destruct (decide (k = job_id)) as [->|Hne].
  - rewrite (bool_decide_eq_false_2 (state r = dead)), andb_false_r;
      [done|]. now apply H0.
  - now rewrite (bool_decide_eq_false_2 (k = job_id)).
Qed.

(** X13. [dlq_retry] on an id that is absent, or whose row is not dead,
    leaves the whole table as it was; so a second [dlq_retry] of the same id
    changes nothing either. *)
Theorem dlq_retry_is_noop_unless_dead job_id w :
  (forall r, jobs w !! job_id = Some r -> state r <> dead) ->
  jobs (dlq_retry job_id w).2 = jobs w
  /\ jobs (dlq_retry job_id (dlq_retry job_id w).2).2 = jobs w.
Proof.
  intros Hnot. split; [now apply dlq_retry_noop|].
  rewrite (dlq_retry_noop job_id (dlq_retry job_id w).2);
    [now apply dlq_retry_noop|].
  intros r. rewrite (dlq_retry_noop job_id w Hnot). apply Hnot.
Qed.

(** X14. After [dlq_retry] of a dead job the row is ready for any claim
    at whose clock reading its [run_at] test passes; no other row is
    touched, and retrying the same id again changes nothing. *)
Theorem retried_job_is_ready_again job_id w r :
  jobs w !! job_id = Some r -> state r = dead ->
  (exists r1,
     jobs (dlq_retry job_id w).2 !! job_id = Some r1
     /\ attempts r1 = 0
     /\ forall now, run_gate now r = true -> ready now r1 = true)
  /\ (forall k, k <> job_id ->
        jobs (dlq_retry job_id w).2 !! k = jobs w !! k)
  /\ jobs (dlq_retry job_id (dlq_retry job_id w).2).2
     = jobs (dlq_retry job_id w).2.
Proof.
  intros Hk Hd.
  assert (Hrow : jobs (dlq_retry job_id w).2 !! job_id
                 = Some (set_retried (clock w (tick w)) r)).
  { rewrite dlq_retry_lookup, Hk. simpl.
    now rewrite !bool_decide_eq_true_2. }
  split; [|split].
  - eexists. split; [exact Hrow|]. split; [reflexivity|].
    intros now Hrun. apply ready_spec. simpl.
    split; [now left|]. split; [exact Hrun | now left].
  - intros k Hne. rewrite dlq_retry_lookup.
    destruct (jobs w !! k); simpl; [|done].
    now rewrite (bool_decide_eq_false_2 (k = job_id)).
  - apply dlq_retry_noop. intros r1. rewrite Hrow.
    intros [= <-]. discriminate.
Qed.

(** X15. [enqueue] of a fresh id, with integers sqlite3 can bind and a
    well-formed [--run-at] (for [+N], one whose sum with the clock is a
    [datetime]), inserts one row: pending, no attempts, no lease, no
    output, created and updated at the first clock reading.  Its [run_at]
    is the text given, stored as it stands, or for [+N] the [isoformat] of
    a second clock reading plus N seconds, or null.  Every other row is as
    before, and the row is ready as soon as its [run_at] test passes. *)
Theorem enqueue_inserts_a_pending_row id cmd retries timeout prio ra w :
  jobs w !! id = None ->
  sqlite_integer retries = true -> sqlite_integer prio = true ->
  from_option sqlite_integer true timeout = true ->
  match ra with
  | Some Malformed => False
  | Some (RelativeSeconds n) =>
      is_Some (Datetime.add_seconds (clock w (S (tick w))) n)
  | _ => True
  end ->
  let scheduled :=
    match ra with
    | Some (RelativeSeconds n) =>
        Some (Datetime.isoformat
                (clock w (S (tick w)) + timedelta_seconds n))
    | Some (Verbatim s) => if decide (s = ""%string) then None else Some s
    | _ => None
    end in
  let row := new_job cmd retries timeout prio scheduled (clock w (tick w)) in
  (enqueue id cmd retries timeout prio ra w).1 = true
  /\ jobs (enqueue id cmd retries timeout prio ra w).2 = <[id := row]> (jobs w)
  /\ state row = pending /\ attempts row = 0 /\ lease_until row = None
  /\ output row = None /\ max_retries row = retries
  /\ run_at row = scheduled
  /\ (forall now, run_gate now row = true -> ready now row = true).
Proof.
  intros Hfresh Hr Hp Ht Hra. cbv zeta.
  assert (Hrow : forall sch now,
            ready now (new_job cmd retries timeout prio sch
                         (clock w (tick w))) = true
            <-> run_gate now (new_job cmd retries timeout prio sch
                               (clock w (tick w))) = true).
  { intros sch now. rewrite ready_spec. simpl. split; [tauto|].
    intros Hg. split; [now left|]. split; [exact Hg | now left]. }
  assert (Hrun : (enqueue id cmd retries timeout prio ra w).1 = true
            /\ jobs (enqueue id cmd retries timeout prio ra w).2
               = <[id := new_job cmd retries timeout prio
                           match ra with
                           | Some (RelativeSeconds n) =>
                               Some (Datetime.isoformat
                                       (clock w (S (tick w))
                                        + timedelta_seconds n))
                           | Some (Verbatim s) =>
                               if decide (s = ""%string) then None else Some s
                           | _ => None
                           end (clock w (tick w))]> (jobs w)).
  { unfold enqueue.
    destruct ra as [[n|[|a s]|]|]; try done; run_cli.
    - destruct Hra as [t' Ht']. rewrite Ht'.
      apply add_seconds_Some in Ht'. subst t'.
      cbn [fmap option_fmap option_map]. run_cli.
      rewrite Hr, Hp, Ht. cbn [andb]. run_cli. rewrite Hfresh. now run_cli.
    - rewrite Hr, Hp, Ht. cbn [andb]. run_cli. rewrite Hfresh. now run_cli.
    - rewrite Hr, Hp, Ht. cbn [andb]. run_cli. rewrite Hfresh. now run_cli.
    - rewrite Hr, Hp, Ht. cbn [andb]. run_cli. rewrite Hfresh. now run_cli. }
  destruct Hrun as [Hok Htab].
  split; [exact Hok|]. split; [exact Htab|].
  repeat split. intros now. apply Hrow.
Qed.

(** X16. [enqueue] never overwrites: with an id already in the table, or a
    [+N] that does not parse, it reports failure and the table is unchanged;
    and whatever its arguments, every row that was there is still there,
    unchanged. *)
Theorem enqueue_never_overwrites id cmd retries timeout prio ra w :
  (jobs w !! id <> None \/ ra = Some Malformed ->
   (enqueue id cmd retries timeout prio ra w).1 = false
   /\ jobs (enqueue id cmd retries timeout prio ra w).2 = jobs w)
  /\ (forall k r, jobs w !! k = Some r ->
        jobs (enqueue id cmd retries timeout prio ra w).2 !! k = Some r).
Proof.
  split.
  - intros Hbad. unfold enqueue.
    destruct ra as [[n|[|a s]|]|]; run_cli;
      try (destruct (Datetime.add_seconds _ n) as [t'|];
           cbn [fmap option_fmap option_map]; run_cli);
      try (split; reflexivity);
      (destruct (sqlite_integer retries && sqlite_integer prio
                 && from_option sqlite_integer true timeout); run_cli;
       [|split; reflexivity]);
      (destruct (jobs w !! id) eqn:Hid; run_cli; [split; reflexivity|]);
      destruct Hbad; done.
  - intros k r Hk.
    destruct (enqueue_jobs id cmd retries timeout prio ra w)
      as [->|(sch & now & Hfresh & ->)]; [done|].
    rewrite lookup_insert_ne; [done|]. congruence.
Qed.

End AdminMore.

Section AdminMoreWitnesses.


Lemma rescue_touches_only_leased_processing_witness :
  let w := Examples.two_jobs in
  let r := new_job "true" 3 None 10 None 1000000 in
  (jobs w !! "hi"%string = Some r
   /\ (state r <> processing \/ lease_until r = None))
  /\ jobs (rescue_leases 0 w).2 !! "hi"%string = Some r
  /\ "hi"%string ∉ (rescue_leases 0 w).1.
Proof.
  assert (H1 : jobs Examples.two_jobs !! "hi"%string
               = Some (new_job "true" 3 None 10 None 1000000))
    by (vm_compute; reflexivity).
  assert (H2 : state (new_job "true" 3 None 10 None 1000000) <> processing
               \/ lease_until (new_job "true" 3 None 10 None 1000000) = None)
    by (right; reflexivity).
  split; [exact (conj H1 H2)|].
  exact (rescue_touches_only_leased_processing 0 Examples.two_jobs "hi" _
           H1 H2).
Defined.

Lemma dlq_retry_is_noop_unless_dead_witness :
  let w := Examples.two_jobs in
  (forall r, jobs w !! "nope"%string = Some r -> state r <> dead)
  /\ jobs (dlq_retry "nope" w).2 = jobs w.
Proof.
  assert (H : forall r, jobs Examples.two_jobs !! "nope"%string = Some r ->
                        state r <> dead).
  { intros r Hr. vm_compute in Hr. discriminate Hr. }
  split; [exact H|].
  exact (proj1 (dlq_retry_is_noop_unless_dead "nope" Examples.two_jobs H)).
Defined.

Lemma retried_job_is_ready_again_witness :
  let w := Examples.timed_out in
  (exists r, jobs w !! "d"%string = Some r /\ state r = dead)
  /\ exists r1,
       jobs (dlq_retry "d" w).2 !! "d"%string = Some r1
       /\ attempts r1 = 0 /\ ready 0 r1 = true.
Proof.
  eassert (H1 : jobs Examples.timed_out !! "d"%string = Some _)
    by (vm_compute; reflexivity).
  split; [eexists; split; [exact H1 | reflexivity]|].
  destruct (retried_job_is_ready_again "d" Examples.timed_out _ H1 eq_refl)
    as ((r1 & Hr1 & Ha & Hready) & _).
  exists r1. split; [exact Hr1|]. split; [exact Ha|].
  apply Hready. reflexivity.
Defined.

Lemma enqueue_inserts_a_pending_row_witness :
  let w := Examples.two_jobs in
  (jobs w !! "new"%string = None
   /\ sqlite_integer 3 = true /\ sqlite_integer 0 = true
   /\ from_option sqlite_integer true None = true
   /\ is_Some (Datetime.add_seconds (clock w (S (tick w))) 60))
  /\ (enqueue "new" "true" 3 None 0 (Some (RelativeSeconds 60)) w).1 = true
  /\ jobs (enqueue "new" "true" 3 None 0 (Some (RelativeSeconds 60)) w).2
     = <[ "new"%string :=
            new_job "true" 3 None 0 (Some "1970-01-01T00:01:03"%string)
              (timedelta_seconds 2) ]> (jobs w).
Proof.
  assert (H1 : jobs Examples.two_jobs !! "new"%string = None)
    by (vm_compute; reflexivity).
  assert (H2 : sqlite_integer 3 = true) by reflexivity.
  assert (H3 : sqlite_integer 0 = true) by reflexivity.
  assert (H4 : from_option sqlite_integer true None = true) by reflexivity.
  assert (H5 : is_Some (Datetime.add_seconds
                          (clock Examples.two_jobs
                             (S (tick Examples.two_jobs))) 60))
    by (eexists; vm_compute; reflexivity).
  split; [exact (conj H1 (conj H2 (conj H3 (conj H4 H5))))|].
  destruct (enqueue_inserts_a_pending_row "new" "true" 3 None 0
              (Some (RelativeSeconds 60)) Examples.two_jobs H1 H2 H3 H4 H5)
    as (Hok & Htab & _).
  split; [exact Hok|]. rewrite Htab. vm_compute. reflexivity.
Defined.

End AdminMoreWitnesses.

(** ** Invariants of the rows in every run *)

Section Invariants.

Implicit Types (s : Sys) (r : Job) (k : string).

(** The shape every stored row has: a lease exactly on the rows in state
    processing, which also name their worker, and an end time on the
    completed and dead ones. *)
Lemma row_shape_after_change l k r r' :
  row_change l k r r' ->
  (state r' = processing <-> lease_until r' <> None)
  /\ (state r' = processing -> worker_id r' <> None)
  /\ (state r' = completed \/ state r' = dead -> finished_at r' <> None).
Proof.
  intros Hch. destruct Hch; simpl; repeat split; try done;
    try (intros [?|?]; discriminate).
Qed.

(** X17. In every state reached from the empty store, a row carries a lease
    if and only if it is in state processing; a processing row names its
    worker; a completed or dead row has its [finished_at] set. So the lease
    test of the Claimer excludes no pending or failed row: readiness is
    decided by the state, the retry time and [run_at] alone. *)
Theorem lease_only_on_processing_rows s0 ls s k r :
  initial s0 -> reach any_step s0 ls s ->
  jobs (world s) !! k = Some r ->
  (state r = processing <-> lease_until r <> None)
  /\ (state r = processing -> worker_id r <> None)
  /\ (state r = completed \/ state r = dead -> finished_at r <> None)
  /\ (forall now,
        ready now r
        = (bool_decide (state r = pending)
           || (bool_decide (state r = failed) && Sql.le (next_run_at r) now))
          && (Sql.is_null (run_at r)
              || Sql.le_text (run_at r) (Datetime.isoformat now))).
Proof.
  intros Hinit Hreach Hk.
  assert (Hshape :
    (state r = processing <-> lease_until r <> None)
    /\ (state r = processing -> worker_id r <> None)
    /\ (state r = completed \/ state r = dead -> finished_at r <> None)).
  { revert k r Hk.
    induction Hreach as [|ls s1 l s2 _ IH _ Hstep]; intros k r' Hk'.
    - destruct Hinit as [Hempty _]. rewrite Hempty, lookup_empty in Hk'.
      discriminate.
    - destruct (step_rows s1 l s2 k Hstep)
        as [Heq|[(r & r0 & Hk & Hk0 & Hch)
                |(_ & cmd & m & t & p & sch & now & Hnew)]].
      + rewrite Heq in Hk'. now apply (IH _ _ Hk').
      + rewrite Hk' in Hk0. injection Hk0 as <-.
        exact (row_shape_after_change _ _ _ _ Hch).
      + rewrite Hk' in Hnew. injection Hnew as ->. simpl.
        repeat split; try done. intros [?|?]; discriminate. }
  destruct Hshape as (Hlease & Hworker & Hfin).
  split; [exact Hlease|]. split; [exact Hworker|]. split; [exact Hfin|].
  intros now. unfold ready.
  destruct (decide (state r = processing)) as [Hp|Hnp].
  - rewrite Hp. simpl. reflexivity.
  - assert (Hnull : lease_until r = None).
    { destruct (lease_until r) eqn:Hl; [|done].
      exfalso. apply Hnp, Hlease. discriminate. }
    rewrite Hnull. simpl. rewrite andb_true_r.
    destruct (next_run_at r); simpl; reflexivity.
Qed.

(** X18. A worker acting alone cannot change a row in a terminal state: a
    claim never returns or rewrites a completed or dead row, and neither
    does rescue. *)
Theorem claim_and_rescue_spare_terminal_rows self older w k r :
  jobs w !! k = Some r ->
  state r = completed \/ state r = dead ->
  jobs (_claim_one_ready_job self w).2 !! k = Some r
  /\ (forall j, (_claim_one_ready_job self w).1 <> Returned (Some (k, j)))
  /\ jobs (rescue_leases older w).2 !! k = Some r.
Proof.
  intros Hk Hterm.
  assert (Hnot : forall j,
            (_claim_one_ready_job self w).1 <> Returned (Some (k, j))).
  { intros j Hc.
    destruct (claim_some _ _ _ _ Hc) as (r0 & Hid & Hr & _).
    rewrite Hk in Hid. injection Hid as <-.
    apply ready_spec in Hr as ([Hp|[Hf _]] & _); destruct Hterm; congruence. }
  split; [|split; [exact Hnot|]].
  - destruct (_claim_one_ready_job self w).1 as [[[id j]|]|e] eqn:Hc.
    + destruct (claim_some _ _ _ _ Hc) as (r0 & _ & _ & _ & -> & _).
      rewrite lookup_insert_ne; [done|]. intros ->. now apply (Hnot j).
    + now apply claim_none in Hc as [-> _].
    + apply (proj2 (claim_raised self w)) in Hc. now rewrite Hc.
  - destruct (rescue_leases_spec older w) as [_ Htab].
    rewrite Htab, Hk. simpl.
    destruct (expired_lease _ r) eqn:He; [|done].
    apply expired_spec in He as [Hp _]. destruct Hterm; congruence.
Qed.

End Invariants.

Section InvariantWitnesses.

Lemma lease_only_on_processing_rows_witness :
  let r := set_dead 1 1 (Some "boom"%string) (timedelta_seconds 480)
             (timedelta_seconds 120) LateRun.snap2.2 in
  (initial LateRun.s0
   /\ reach any_step LateRun.s0 LateRun.until_dead LateRun.s5
   /\ jobs (world LateRun.s5) !! "e"%string = Some r)
  /\ lease_until r = None /\ finished_at r <> None.
Proof.
  assert (Hk : jobs (world LateRun.s5) !! "e"%string
               = Some (set_dead 1 1 (Some "boom"%string)
                         (timedelta_seconds 480) (timedelta_seconds 120)
                         LateRun.snap2.2))
    by (vm_compute; reflexivity).
  split; [exact (conj late_run_initial (conj late_run_until_dead Hk))|].
  destruct (lease_only_on_processing_rows LateRun.s0 LateRun.until_dead
              LateRun.s5 "e" _ late_run_initial late_run_until_dead Hk)
    as (_ & _ & Hfin & _).
  split; [reflexivity|]. apply Hfin. right. reflexivity.
Defined.

Lemma claim_and_rescue_spare_terminal_rows_witness :
  let w := Examples.timed_out in
  exists r,
    (jobs w !! "d"%string = Some r /\ (state r = completed \/ state r = dead))
    /\ jobs (_claim_one_ready_job Examples.w2 w).2 !! "d"%string = Some r
    /\ jobs (rescue_leases 0 w).2 !! "d"%string = Some r.
Proof.
  eassert (H1 : jobs Examples.timed_out !! "d"%string = Some _)
    by (vm_compute; reflexivity).
  eexists. split; [split; [exact H1 | right; reflexivity]|].
  destruct (claim_and_rescue_spare_terminal_rows Examples.w2 0
              Examples.timed_out "d" _ H1 (or_intror eq_refl))
    as (Hc & _ & Hr).
  split; [exact Hc | exact Hr].
Defined.

End InvariantWitnesses.

(** ** The config table and the listings *)

Section ConfigFacts.

Import Storage.

(** X19. Reading a key after writing it returns the value written, whatever
    was stored before; other keys read as before; a key never written reads
    as the default; of two writes to a key the later one wins. *)
Theorem config_set_then_get key val now (cfg : gmap string ConfigRow) :
  (forall default, get_config key default (set_config key val now cfg)
                   = Some val)
  /\ (forall key' default, key' <> key ->
        get_config key' default (set_config key val now cfg)
        = get_config key' default cfg)
  /\ (forall default, cfg !! key = None -> get_config key default cfg = default)
  /\ (forall val2 now2,
        set_config key val2 now2 (set_config key val now cfg)
        = set_config key val2 now2 cfg).
Proof.
  assert (Hset : forall v n (c : gmap string ConfigRow),
            set_config key v n c = <[key := mkConfigRow v n]> c).
  { intros v n c. unfold set_config.
    destruct (c !! key) as [row|] eqn:Hk; [|done].
    apply map_eq. intros k. destruct (decide (k = key)) as [->|Hne].
    - now rewrite lookup_alter_eq, lookup_insert_eq, Hk.
    - now rewrite lookup_alter_ne, lookup_insert_ne. }
  split; [|split; [|split]].
  - intros default. unfold get_config.
    now rewrite Hset, lookup_insert_eq.
  - intros key' default Hne. unfold get_config.
    now rewrite Hset, lookup_insert_ne.
  - intros default Hnone. unfold get_config. now rewrite Hnone.
  - intros val2 now2. rewrite !Hset. apply insert_insert_eq.
Qed.

End ConfigFacts.

Section ListingFacts.

Import Listing.

Implicit Types (t : Table) (l : list Row) (x y : Row) (k : string) (r : Job).

Lemma insert_by_created_elem x y l :
  y ∈ insert_by_created x l <-> y = x \/ y ∈ l.
Proof.
  induction l as [|z l IH]; simpl.
  - rewrite list_elem_of_singleton, elem_of_nil. tauto.
  - destruct (_ <=? _); rewrite !elem_of_cons, ?IH; tauto.
Qed.

Lemma insert_by_created_sorted x l :
  StronglySorted by_created l ->
  StronglySorted by_created (insert_by_created x l).
Proof.
  induction 1 as [|z l Hs IH Hall]; simpl.
  - repeat constructor.
  - destruct (Z.leb_spec (created_at z.2) (created_at x.2)).
    + constructor; [exact IH|].
      apply Forall_forall. intros y Hy.
      apply insert_by_created_elem in Hy as [->|Hy]; [done|].
      rewrite Forall_forall in Hall. now apply Hall.
    + constructor; [now constructor|].
      constructor; [unfold by_created; lia|].
      rewrite Forall_forall in Hall |- *. intros y Hy.
      specialize (Hall y Hy). unfold by_created in *. lia.
Qed.

Lemma insert_by_created_length x l :
  length (insert_by_created x l) = S (length l).
Proof.
  induction l as [|z l IH]; simpl; [done|].
  destruct (_ <=? _); simpl; now rewrite ?IH.
Qed.

Lemma order_by_created_spec l :
  (forall y, y ∈ order_by_created l <-> y ∈ l)
  /\ StronglySorted by_created (order_by_created l)
  /\ length (order_by_created l) = length l.
Proof.
  unfold order_by_created.
  assert (H : forall acc,
            StronglySorted by_created acc ->
            (forall y, y ∈ foldl (fun a x => insert_by_created x a) acc l
                       <-> y ∈ acc \/ y ∈ l)
            /\ StronglySorted by_created
                 (foldl (fun a x => insert_by_created x a) acc l)
            /\ length (foldl (fun a x => insert_by_created x a) acc l)
               = (length acc + length l)%nat).
  { induction l as [|x l IH]; intros acc Hacc; simpl.
    - split; [|split; [done|lia]]. intros y. rewrite elem_of_nil. tauto.
    - destruct (IH (insert_by_created x acc)
                  (insert_by_created_sorted x acc Hacc)) as (He & Hs & Hl).
      split; [|split; [done|]].
      + intros y. rewrite He, insert_by_created_elem, elem_of_cons. tauto.
      + rewrite Hl, insert_by_created_length. lia. }
  destruct (H [] (SSorted_nil _)) as (He & Hs & Hl).
  split; [|split; [done|exact Hl]].
  intros y. rewrite He, elem_of_nil. tauto.
Qed.

Lemma dlq_list_elem t k r :
  (k, r) ∈ dlq_list t <-> t !! k = Some r /\ state r = dead.
Proof.
  unfold dlq_list.
  rewrite (proj1 (order_by_created_spec _)), select_spec,
    bool_decide_eq_true. reflexivity.
Qed.

(** X20. [dlq list] prints exactly the dead rows, each once, oldest first;
    on a table without dead rows it prints nothing. *)
Theorem dlq_list_is_the_dead_rows_in_order t :
  (forall k r, (k, r) ∈ dlq_list t <-> t !! k = Some r /\ state r = dead)
  /\ StronglySorted by_created (dlq_list t)
  /\ length (dlq_list t) = count_state dead t
  /\ ((forall k r, t !! k = Some r -> state r <> dead) -> dlq_list t = []).
Proof.
  split; [intros k r; apply dlq_list_elem|].
  split; [apply order_by_created_spec|].
  split; [apply order_by_created_spec|].
  intros Hnone. destruct (dlq_list t) as [|[k r] l] eqn:Hl; [done|].
  exfalso. assert (Hin : (k, r) ∈ dlq_list t) by (rewrite Hl; left).
  apply dlq_list_elem in Hin as [Hk Hd]. exact (Hnone _ _ Hk Hd).
Qed.

(** X21. After [dlq_retry] of an id, that id is no longer printed by [dlq
    list], and the other entries are the ones printed before. *)
Theorem dlq_retry_empties_its_dlq_entry job_id w k r :
  (k, r) ∈ dlq_list (jobs (dlq_retry job_id w).2)
  <-> (k, r) ∈ dlq_list (jobs w) /\ k <> job_id.
Proof.
  rewrite !dlq_list_elem, dlq_retry_lookup.
  destruct (jobs w !! k) as [r0|] eqn:Hk; simpl.
  2:{ split; [now intros [? _] | now intros [[? _] _]]. }
  destruct (decide (k = job_id)) as [->|Hne].
  - rewrite bool_decide_eq_true_2 by done. simpl.
    destruct (decide (state r0 = dead)) as [Hd|Hnd].
    + rewrite bool_decide_eq_true_2 by done.
      split; [|now intros [_ ?]]. intros [[= <-] Hs]. discriminate.
    + rewrite bool_decide_eq_false_2 by done.
      split; [|now intros [_ ?]]. intros [[= <-] Hs]. done.
  - rewrite (bool_decide_eq_false_2 (k = job_id)) by done. simpl. tauto.
Qed.

(** X22. [list] without a filter (or with an empty one) prints every job
    once, oldest first; with a filter it prints the jobs whose state has
    that name, so a name that is no state prints nothing. *)
Theorem list_jobs_filters_by_state_name t :
  (forall k r, (k, r) ∈ list_jobs None t <-> t !! k = Some r)
  /\ list_jobs (Some ""%string) t = list_jobs None t
  /\ length (list_jobs None t) = size t
  /\ (forall s k r, s <> ""%string ->
        ((k, r) ∈ list_jobs (Some s) t
         <-> t !! k = Some r /\ state_name (state r) = s))
  /\ (forall s, s <> ""%string -> (forall st, state_name st <> s) ->
        list_jobs (Some s) t = [])
  /\ forall f, StronglySorted by_created (list_jobs f t).
Proof.
  assert (Hall : forall k r,
            (k, r) ∈ list_jobs None t <-> t !! k = Some r).
  { intros k r. unfold list_jobs.
    rewrite (proj1 (order_by_created_spec _)), select_spec. tauto. }
  assert (Hsome : forall s k r, s <> ""%string ->
            ((k, r) ∈ list_jobs (Some s) t
             <-> t !! k = Some r /\ state_name (state r) = s)).
  { intros s k r Hs. unfold list_jobs.
    destruct s as [|a s]; [done|].
    rewrite (proj1 (order_by_created_spec _)), select_spec,
      bool_decide_eq_true. reflexivity. }
  split; [exact Hall|]. split; [reflexivity|]. split; [|split; [exact Hsome|split]].
  - unfold list_jobs.
    rewrite (proj2 (proj2 (order_by_created_spec _))).
    unfold Sql.select. rewrite <- length_map_to_list.
    f_equal. induction (map_to_list t) as [|x l IH]; [done|].
    cbn. now rewrite IH.
  - intros s Hs Hno.
    destruct (list_jobs (Some s) t) as [|[k r] l] eqn:Hl; [done|].
    exfalso. apply (Hno (state r)).
    apply (Hsome s k r Hs). rewrite Hl. left.
  - intros f. unfold list_jobs.
    destruct f as [[|a s]|]; apply order_by_created_spec.
Qed.

Lemma count_state_total t :
  (count_state completed t + count_state dead t + count_state failed t
   + count_state pending t + count_state processing t)%nat = size t.
Proof.
  unfold count_state, Sql.select. rewrite <- length_map_to_list.
  induction (map_to_list t) as [|[k r] l IH]; [done|].
  cbn [List.filter fst snd length]. destruct (state r);
    cbn [bool_decide decide_rel State_eq_dec]; simpl; lia.
Qed.

Lemma count_state_positive s t :
  (0 < count_state s t)%nat <-> exists k r, t !! k = Some r /\ state r = s.
Proof.
  unfold count_state. split.
  - intros Hpos.
    destruct (Sql.select _ t) as [|[k r] l] eqn:Hsel; [simpl in Hpos; lia|].
    assert (Hin : (k, r) ∈ Sql.select
                    (fun _ r => bool_decide (state r = s)) t)
      by (rewrite Hsel; left).
    apply select_spec in Hin as [Hk Hs]. apply bool_decide_eq_true in Hs.
    eauto.
  - intros (k & r & Hk & Hs).
    assert (Hin : (k, r) ∈ Sql.select
                    (fun _ r => bool_decide (state r = s)) t).
    { apply select_spec. split; [done|]. now apply bool_decide_eq_true. }
    destruct (Sql.select _ t); [now apply elem_of_nil in Hin|simpl; lia].
Qed.

(** X23. [status] prints one line for each state that has at least one job,
    with the number of jobs in that state; the numbers add up to the number
    of jobs in the table. *)
Theorem status_counts_every_job_once t :
  (forall s n, (s, n) ∈ status t <-> n = count_state s t /\ (0 < n)%nat)
  /\ (forall s, (exists n, (s, n) ∈ status t)
                <-> exists k r, t !! k = Some r /\ state r = s)
  /\ sum_list (status t).*2 = size t.
Proof.
  assert (Hline : forall s n,
            (s, n) ∈ status t <-> n = count_state s t /\ (0 < n)%nat).
  { intros s n. unfold status.
    rewrite list_elem_of_In, filter_In, <- list_elem_of_In.
    cbn [snd]. rewrite negb_true_iff, Nat.eqb_neq.
    rewrite list_elem_of_fmap. split.
    - intros [(s' & [= -> ->] & _) Hn]. split; [done|lia].
    - intros [-> Hn]. split; [|lia]. exists s. split; [done|].
      destruct s; repeat first [left | right]. }
  split; [exact Hline|]. split.
  - intros s. rewrite <- count_state_positive. split.
    + intros (n & Hn). apply Hline in Hn as [-> Hpos]. exact Hpos.
    + intros Hpos. exists (count_state s t). now apply Hline.
  - rewrite <- count_state_total. unfold status. cbn [fmap list_fmap].
    cbn [List.filter snd].
    destruct (Nat.eqb_spec (count_state completed t) 0) as [->|_];
      destruct (Nat.eqb_spec (count_state dead t) 0) as [->|_];
      destruct (Nat.eqb_spec (count_state failed t) 0) as [->|_];
      destruct (Nat.eqb_spec (count_state pending t) 0) as [->|_];
      destruct (Nat.eqb_spec (count_state processing t) 0) as [->|_];
      cbn; lia.
Qed.

End ListingFacts.
